(** * mmap-allocator: a file-backed STL allocator (mmap_allocator.h)

    A shallow embedding of [mm::Allocator<T>] and of the two free
    functions [SetDefault] / [FreeDefault], together with the small part of
    the POSIX file interface ([open], [lseek], [write], [mmap]) that the
    allocator drives.  Integers of type [size_t] are 64-bit and wrap;
    pointers are 64-bit addresses. *)

From Stdlib Require Import ZArith Lia.
From stdpp Require Import base option list gmap strings.

Local Open Scope Z_scope.

(** ** Machine integers and pointers *)

Definition SIZE_MAX : Z := 2 ^ 64 - 1.
Definition INT_MAX : Z := 2 ^ 31 - 1.
Definition OFF_MAX : Z := 2 ^ 63 - 1.

(** Arithmetic on [size_t] is taken modulo [2^64]. *)
Definition size_t (x : Z) : Z := x mod 2 ^ 64.

(** The implicit conversion of a [size_t] argument to the signed [off_t]
    parameter of [lseek]. *)
Definition off_t (x : Z) : Z := if x <? 2 ^ 63 then x else x - 2 ^ 64.

Definition NULL : Z := 0.
(** [MAP_FAILED] is [(void * ) -1]. *)
Definition MAP_FAILED : Z := SIZE_MAX.

(** An element type matters to the allocator only through [sizeof(T)]. *)
Record ctype := CType { sizeof : Z }.

Definition char : ctype := CType 1.
Definition int : ctype := CType 4.
Definition double : ctype := CType 8.

(** ** The operating system, as far as the allocator sees it *)

Module Posix.

Record OpenFile := mkOpenFile { of_path : string; of_pos : Z }.

Record Mapping := mkMapping
  { m_addr : Z; m_len : Z; m_path : string; m_off : Z }.

(** [files] gives the length of every regular file, [fdtable] the open
    descriptors of the process, [mappings] its shared file mappings. *)
Record Kernel := mkKernel
  { files : gmap string Z;
    fdtable : gmap Z OpenFile;
    mappings : list Mapping }.

Definition boot : Kernel := mkKernel ∅ ∅ [].

Definition file_length (k : Kernel) (path : string) : Z :=
  default 0 (files k !! path).

Definition is_open (k : Kernel) (fd : Z) : bool :=
  bool_decide (is_Some (fdtable k !! fd)).

Definition file_exists (k : Kernel) (path : string) : bool :=
  bool_decide (is_Some (files k !! path)).

(** [open(path, O_RDWR | O_CREAT | O_TRUNC, 0777)].  The descriptor is
    chosen by the system: [choice] stands for that choice, and a choice that
    is no unused descriptor stands for every way the call can fail. *)
Definition open (path : string) (choice : Z) (k : Kernel) : Z * Kernel :=
  if bool_decide (0 ≤ choice ≤ INT_MAX ∧ fdtable k !! choice = None)
  then (choice,
        mkKernel (<[path := 0]> (files k))
                 (<[choice := mkOpenFile path 0]> (fdtable k))
                 (mappings k))
  else (-1, k).

(** [lseek(fd, offset, SEEK_END)]. *)
Definition lseek_end (fd offset : Z) (k : Kernel) : Z * Kernel :=
  match fdtable k !! fd with
  | None => (-1, k)
  | Some f =>
      let pos := file_length k (of_path f) + offset in
      if bool_decide (0 ≤ pos ≤ OFF_MAX)
      then (pos, mkKernel (files k)
                          (<[fd := mkOpenFile (of_path f) pos]> (fdtable k))
                          (mappings k))
      else (-1, k)
  end.

(** [write(fd, buf, 1)]: one byte at the current position of [fd]; a
    position past the end of the file extends it (the gap reads as zero).
    [ok = false] stands for every way the call can fail. *)
Definition write1 (fd : Z) (ok : bool) (k : Kernel) : Z * Kernel :=
  match fdtable k !! fd with
  | None => (-1, k)
  | Some f =>
      if ok
      then let pos := of_pos f in
           let len := file_length k (of_path f) in
           (1, mkKernel (<[of_path f := Z.max len (pos + 1)]> (files k))
                        (<[fd := mkOpenFile (of_path f) (pos + 1)]> (fdtable k))
                        (mappings k))
      else (-1, k)
  end.

Definition disjoint_from (addr len : Z) (m : Mapping) : bool :=
  bool_decide (addr + len ≤ m_addr m ∨ m_addr m + m_len m ≤ addr).

(** [mmap(0, length, PROT_READ | PROT_WRITE, MAP_SHARED, fd, offset)].
    The address is chosen by the system: [choice] stands for that choice.
    The call fails with [MAP_FAILED] for a zero length, a bad descriptor or
    an offset that is no multiple of the page size; a choice that is no
    free page-aligned range stands for every other way it can fail. *)
Definition mmap (pagesize length fd offset choice : Z) (k : Kernel)
  : Z * Kernel :=
  match fdtable k !! fd with
  | None => (MAP_FAILED, k)
  | Some f =>
      if bool_decide (0 < length ∧ 0 ≤ offset ∧ offset mod pagesize = 0)
         && bool_decide (0 < choice ∧ choice mod pagesize = 0
                         ∧ choice + length ≤ SIZE_MAX)
         && forallb (disjoint_from choice length) (mappings k)
      then (choice,
            mkKernel (files k) (fdtable k)
                     (mkMapping choice length (of_path f) offset :: mappings k))
      else (MAP_FAILED, k)
  end.

End Posix.

(** ** Shared state of the allocator handles *)

(** Heap addresses of the shared objects.  The source's [SizeMap],
    [std::map<void*, size_type>], is [gmap Z Z]; its [FreeMap],
    [std::map<size_type, std::vector<void*>>], is [gmap Z (list Z)]. *)
Abbreviation loc := positive.

(** What a [std::shared_ptr<A>] points to: the object and its use count. *)
Record Shared (A : Type) := mkShared { use_count : nat; target : A }.
Arguments mkShared {A} _ _.
Arguments use_count {A} _.
Arguments target {A} _.

(** An [Allocator<T>] object: a descriptor and two shared pointers. *)
Record Allocator (T : ctype) := mkAllocator
  { fd_ : Z; sizes_ : loc; free_blocks_ : loc }.
Arguments fd_ {T} _.
Arguments sizes_ {T} _.
Arguments free_blocks_ {T} _.

(** The process: the system, the two kinds of shared maps on the heap, the
    heap-allocated [Allocator<char>] objects made by [New], and the global
    [default_allocator] ([None] is the null pointer). *)
Record World := mkWorld
  { kernel : Posix.Kernel;
    size_maps : gmap loc (Shared (gmap Z Z));
    free_maps : gmap loc (Shared (gmap Z (list Z)));
    allocators : gmap loc (Allocator char);
    default_allocator : option loc }.

Definition start : World := mkWorld Posix.boot ∅ ∅ ∅ None.

(** A computation either runs into undefined behaviour ([None]) or yields a
    result and the next world. *)
Definition M (A : Type) : Type := World → option (A * World).

#[global] Instance M_ret : MRet M := λ A x w, Some (x, w).
#[global] Instance M_bind : MBind M := λ A B f c w,
  match c w with
  | Some (x, w') => f x w'
  | None => None
  end.

Definition sys (call : Posix.Kernel → Z * Posix.Kernel) : M Z := λ w,
  let '(r, k) := call (kernel w) in
  Some (r, mkWorld k (size_maps w) (free_maps w) (allocators w)
                   (default_allocator w)).

Definition get_sizes (l : loc) : M (gmap Z Z) := λ w,
  match size_maps w !! l with
  | Some s => Some (target s, w)
  | None => None
  end.

Definition put_sizes (l : loc) (m : gmap Z Z) : M unit := λ w,
  match size_maps w !! l with
  | Some s =>
      Some (tt, mkWorld (kernel w)
                        (<[l := mkShared (use_count s) m]> (size_maps w))
                        (free_maps w) (allocators w) (default_allocator w))
  | None => None
  end.

Definition get_free (l : loc) : M (gmap Z (list Z)) := λ w,
  match free_maps w !! l with
  | Some s => Some (target s, w)
  | None => None
  end.

Definition put_free (l : loc) (m : gmap Z (list Z)) : M unit := λ w,
  match free_maps w !! l with
  | Some s =>
      Some (tt, mkWorld (kernel w) (size_maps w)
                        (<[l := mkShared (use_count s) m]> (free_maps w))
                        (allocators w) (default_allocator w))
  | None => None
  end.

(** [new SizeMap()] and [new FreeMap()], each taken over by a fresh
    [shared_ptr] (use count one). *)
Definition new_sizes : M loc := λ w,
  let l := fresh (dom (size_maps w)) in
  Some (l, mkWorld (kernel w) (<[l := mkShared 1 ∅]> (size_maps w))
                   (free_maps w) (allocators w) (default_allocator w)).

Definition new_free : M loc := λ w,
  let l := fresh (dom (free_maps w)) in
  Some (l, mkWorld (kernel w) (size_maps w)
                   (<[l := mkShared 1 ∅]> (free_maps w))
                   (allocators w) (default_allocator w)).

(** Copying and destroying a [shared_ptr]. *)
Definition acquire {A} (l : loc) (h : gmap loc (Shared A))
  : option (gmap loc (Shared A)) :=
  s ← h !! l; Some (<[l := mkShared (S (use_count s)) (target s)]> h).

Definition release {A} (l : loc) (h : gmap loc (Shared A))
  : option (gmap loc (Shared A)) :=
  s ← h !! l;
  Some (match use_count s with
        | S (S c) => <[l := mkShared (S c) (target s)]> h
        | _ => delete l h
        end).

Definition acquire_sizes (l : loc) : M unit := λ w,
  h ← acquire l (size_maps w);
  Some (tt, mkWorld (kernel w) h (free_maps w) (allocators w)
                    (default_allocator w)).

Definition acquire_free (l : loc) : M unit := λ w,
  h ← acquire l (free_maps w);
  Some (tt, mkWorld (kernel w) (size_maps w) h (allocators w)
                    (default_allocator w)).

Definition release_sizes (l : loc) : M unit := λ w,
  h ← release l (size_maps w);
  Some (tt, mkWorld (kernel w) h (free_maps w) (allocators w)
                    (default_allocator w)).

Definition release_free (l : loc) : M unit := λ w,
  h ← release l (free_maps w);
  Some (tt, mkWorld (kernel w) (size_maps w) h (allocators w)
                    (default_allocator w)).

(** The heap-allocated [Allocator<char>] objects and the global pointer. *)
Definition new_allocator (a : Allocator char) : M loc := λ w,
  let p := fresh (dom (allocators w)) in
  Some (p, mkWorld (kernel w) (size_maps w) (free_maps w)
                   (<[p := a]> (allocators w)) (default_allocator w)).

Definition load_allocator (p : option loc) : M (Allocator char) := λ w,
  match p with
  | None => None
  | Some p => d ← allocators w !! p; Some (d, w)
  end.

Definition free_allocator (p : loc) : M unit := λ w,
  Some (tt, mkWorld (kernel w) (size_maps w) (free_maps w)
                    (delete p (allocators w)) (default_allocator w)).

Definition get_default : M (option loc) := λ w,
  Some (default_allocator w, w).

Definition set_default (p : option loc) : M unit := λ w,
  Some (tt, mkWorld (kernel w) (size_maps w) (free_maps w)
                    (allocators w) p).

(** [operator[]] of [std::map]: a missing key is first inserted with the
    value-initialised mapped value [d]. *)
Definition subscript `{Countable K} {V} (d : V) (k : K) (m : gmap K V)
  : V * gmap K V :=
  match m !! k with
  | Some v => (v, m)
  | None => (d, <[k := d]> m)
  end.

(** ** The allocator *)

(** What the system answers during one call of [allocate]: whether the
    [write] goes through, and the address [mmap] picks. *)
Record Oracle := mkOracle { write_ok : bool; mmap_choice : Z }.

Section Allocator.

(** [const int kPageSize = sysconf(_SC_PAGE_SIZE)].  The system reports a
    positive [int], which the conversion to [size_t] in
    [to_alloc % kPageSize] leaves as it is. *)
Variable kPageSize : Z.

(** Lines 67-70 of [allocate]: the byte count, rounded up to a multiple of
    the page size. *)
Definition block_size (T : ctype) (n : Z) : Z :=
  let to_alloc := size_t (n * sizeof T) in
  if negb (to_alloc mod kPageSize =? 0)
  then size_t ((to_alloc / kPageSize + 1) * kPageSize)
  else to_alloc.

(** [static Allocator* New(std::string filename)] *)
Definition New (filename : string) (fd_choice : Z) : M (option loc) :=
  fd ← sys (Posix.open filename fd_choice);
  if fd =? -1 then mret None
  else
    s ← new_sizes;
    f ← new_free;
    p ← new_allocator (mkAllocator char fd s f);
    mret (Some p).

(** [Allocator()]: the members are copied out of [*default_allocator]. *)
Definition Allocator_default (T : ctype) : M (Allocator T) :=
  p ← get_default;
  d ← load_allocator p;
  acquire_sizes (sizes_ d);;
  acquire_free (free_blocks_ d);;
  mret (mkAllocator T (fd_ d) (sizes_ d) (free_blocks_ d)).

(** [template <class U> Allocator(const Allocator<U>& other)], and the
    implicit copy constructor when [U] is [T]. *)
Definition Allocator_copy {U : ctype} (T : ctype) (other : Allocator U)
  : M (Allocator T) :=
  acquire_sizes (sizes_ other);;
  acquire_free (free_blocks_ other);;
  mret (mkAllocator T (fd_ other) (sizes_ other) (free_blocks_ other)).

(** The implicit destructor: the members go in reverse order of
    declaration; [fd_] is a plain [int]. *)
Definition Allocator_destroy {T : ctype} (a : Allocator T) : M unit :=
  release_free (free_blocks_ a);;
  release_sizes (sizes_ a).

(** [T* allocate(size_t n)] *)
Definition allocate {T : ctype} (a : Allocator T) (n : Z) (os : Oracle)
  : M Z :=
  let to_alloc := block_size T n in
  fm ← get_free (free_blocks_ a);
  let '(vec, fm) := subscript [] to_alloc fm in
  if negb (bool_decide (vec = []))
  then
    let addr := List.last vec NULL in
    put_free (free_blocks_ a) (<[to_alloc := removelast vec]> fm);;
    mret addr
  else
    put_free (free_blocks_ a) fm;;
    previous_end ← sys (Posix.lseek_end (fd_ a) 0);
    r ← sys (Posix.lseek_end (fd_ a) (off_t (size_t (to_alloc - 1))));
    if r =? -1 then mret NULL
    else
      r ← sys (Posix.write1 (fd_ a) (write_ok os));
      if negb (r =? 1) then mret NULL
      else
        addr ← sys (Posix.mmap kPageSize to_alloc (fd_ a) previous_end
                               (mmap_choice os));
        sm ← get_sizes (sizes_ a);
        put_sizes (sizes_ a) (<[addr := to_alloc]> sm);;
        mret addr.

(** [void deallocate(T* p, size_t n)] *)
Definition deallocate {T : ctype} (a : Allocator T) (p n : Z) : M unit :=
  sm ← get_sizes (sizes_ a);
  let '(to_free, sm) := subscript 0 p sm in
  put_sizes (sizes_ a) sm;;
  fm ← get_free (free_blocks_ a);
  let '(vec, fm) := subscript [] to_free fm in
  put_free (free_blocks_ a) (<[to_free := vec ++ [p]]> fm).

(** Modelled from the spec: the accessor [fd()] that [operator==] calls is
    declared nowhere in the header; the spec compares the handles' file
    descriptors, so it returns the member [fd_]. *)
Definition fd {T : ctype} (a : Allocator T) : Z := fd_ a.



(** [void SetDefault(std::string filename)] *)
Definition SetDefault (filename : string) (fd_choice : Z) : M unit :=
  p ← New filename fd_choice;
  set_default p.

(** [void FreeDefault()]: a [delete] expression on [default_allocator],
    which runs the destructor and frees the object; the pointer itself is
    left as it is.  Deleting a null pointer does nothing. *)
Definition FreeDefault : M unit :=
  p ← get_default;
  match p with
  | None => mret tt
  | Some l =>
      d ← load_allocator p;
      Allocator_destroy d;;
      free_allocator l
  end.

(** ** Observations on a handle *)

(** The Size Registry and the Free List a handle points to. *)
Definition registry {T : ctype} (w : World) (a : Allocator T) : gmap Z Z :=
  default ∅ (target <$> size_maps w !! sizes_ a).

Definition free_list {T : ctype} (w : World) (a : Allocator T)
  : gmap Z (list Z) :=
  default ∅ (target <$> free_maps w !! free_blocks_ a).

Definition bucket {T : ctype} (w : World) (a : Allocator T) (size : Z)
  : list Z :=
  default [] (free_list w a !! size).

(** Both shared pointers of the handle point to objects that are alive. *)
Definition valid {T : ctype} (w : World) (a : Allocator T) : Prop :=
  is_Some (size_maps w !! sizes_ a) ∧ is_Some (free_maps w !! free_blocks_ a).

(** Two handles on one arena: same descriptor, same two shared objects. *)
Definition same_arena {T U : ctype} (a : Allocator T) (b : Allocator U)
  : Prop :=
  fd_ a = fd_ b ∧ sizes_ a = sizes_ b ∧ free_blocks_ a = free_blocks_ b.

(** Length of the backing file of a handle. *)
Definition backing_length {T : ctype} (w : World) (a : Allocator T) : Z :=
  match Posix.fdtable (kernel w) !! fd_ a with
  | Some f => Posix.file_length (kernel w) (Posix.of_path f)
  | None => 0
  end.

(** Running a computation in a world and looking at the outcome. *)
Definition observe {A B : Type} (c : M A) (f : A → World → B) (w : World)
  : option B :=
  '(x, w') ← c w; Some (f x w').

(** A positive integer multiple of [k]. *)
Definition positive_multiple (k s : Z) : Prop := ∃ c, 0 < c ∧ s = c * k.

(** The smallest multiple of [k] that is at least [b]. *)
Definition smallest_multiple_ge (k b r : Z) : Prop :=
  (k | r) ∧ b ≤ r ∧ ∀ m, (k | m) → b ≤ m → r ≤ m.

(** The largest multiple of the page size that a [size_t] holds. *)
Definition max_block : Z := SIZE_MAX / kPageSize * kPageSize.

(** ** Histories of one arena *)

(** A client's calls on the handles of one arena.  Handles of every element
    type take part: [at_type T h] is the handle a rebind of [h] to [T]
    holds. *)
Inductive Op :=
  | OAllocate (T : ctype) (n : Z) (os : Oracle)
  | ODeallocate (T : ctype) (p n : Z).

Definition at_type {U : ctype} (T : ctype) (h : Allocator U) : Allocator T :=
  mkAllocator T (fd_ h) (sizes_ h) (free_blocks_ h).

(** One call.  Next to the world runs the table of live addresses: those a
    call of [allocate] returned (other than the null pointer) and no call of
    [deallocate] has taken back, each with the rounded size of the call
    that returned it.  With [contract] set, the client keeps the allocator
    contract and deallocates live addresses only; a call outside the
    contract, like undefined behaviour, ends the history. *)
Definition step {U : ctype} (h : Allocator U) (contract : bool) (op : Op)
    (s : World * gmap Z Z) : option (World * gmap Z Z) :=
  let '(w, live) := s in
  match op with
  | OAllocate T n os =>
      '(p, w') ← allocate (at_type T h) n os w;
      Some (w', if p =? NULL then live else <[p := block_size T n]> live)
  | ODeallocate T p n =>
      if contract && negb (bool_decide (is_Some (live !! p))) then None
      else
        '(_, w') ← deallocate (at_type T h) p n w;
        Some (w', delete p live)
  end.

Fixpoint run {U : ctype} (h : Allocator U) (contract : bool) (ops : list Op)
    (s : World * gmap Z Z) : option (World * gmap Z Z) :=
  match ops with
  | [] => Some s
  | op :: ops => s' ← step h contract op s; run h contract ops s'
  end.

(** A history from the creation of the arena by [New], in any world. *)
Definition history (contract : bool) (w0 : World) (filename : string)
    (fd_choice : Z) (ops : list Op)
  : option (Allocator char * World * gmap Z Z) :=
  '(p, w) ← New filename fd_choice w0;
  l ← p;
  h ← allocators w !! l;
  '(w', live) ← run h contract ops (w, ∅);
  Some (h, w', live).

(** A call that is no allocation of the size class [size]. *)
Definition no_allocation_of (size : Z) (op : Op) : Prop :=
  match op with
  | OAllocate T n _ => block_size T n ≠ size
  | ODeallocate _ _ _ => True
  end.

(** A call that stays away from the size class [size] in the world [w]: an
    [allocate] of another rounded size, or a [deallocate] of an address for
    which the Size Registry holds another size (zero where it holds none,
    l.95), so that the address goes to another bucket (l.96). *)
Definition other_class {U : ctype} (h : Allocator U) (size : Z) (w : World)
    (op : Op) : Prop :=
  match op with
  | OAllocate T n _ => block_size T n ≠ size
  | ODeallocate _ p _ => default 0 (registry w h !! p) ≠ size
  end.

(** Every call of [ops], made one after the other from the state [s], stays
    away from the size class [size]. *)
Fixpoint others_only {U : ctype} (h : Allocator U) (contract : bool)
    (size : Z) (ops : list Op) (s : World * gmap Z Z) : Prop :=
  match ops with
  | [] => True
  | op :: ops =>
      other_class h size s.1 op ∧
      match step h contract op s with
      | Some s' => others_only h contract size ops s'
      | None => True
      end
  end.

(** [a] is the base address of a mapping of positive length. *)
Definition mapped (k : Posix.Kernel) (a : Z) : Prop :=
  ∃ m, m ∈ Posix.mappings k ∧ Posix.m_addr m = a ∧ 0 < Posix.m_len m.

(** What every history keeps true of the arena. *)
Record consistent {U : ctype} (h : Allocator U) (w : World)
    (live : gmap Z Z) : Prop := mkConsistent
  { cons_valid : valid w h;
    cons_live : ∀ a, is_Some (live !! a) → is_Some (registry w h !! a);
    cons_free : ∀ size vec a,
      free_list w h !! size = Some vec → a ∈ vec →
      is_Some (registry w h !! a) }.

(** Every registered size is a multiple of the page size, zero or more. *)
Definition page_sized {U : ctype} (h : Allocator U) (w : World) : Prop :=
  ∀ a size, registry w h !! a = Some size → ∃ c, 0 ≤ c ∧ size = c * kPageSize.

(** What the histories of a client that keeps the contract keep true in
    addition: apart from [MAP_FAILED], a live address is registered with
    the rounded size it was allocated with, a free address lies in the
    bucket of its registered size, and every registered address is a
    mapping and has a positive size. *)
Record well_bucketed {U : ctype} (h : Allocator U) (w : World)
    (live : gmap Z Z) : Prop := mkWellBucketed
  { wb_live : ∀ a size,
      live !! a = Some size → a ≠ MAP_FAILED →
      registry w h !! a = Some size;
    wb_bucket : ∀ size vec a,
      free_list w h !! size = Some vec → a ∈ vec → a ≠ MAP_FAILED →
      registry w h !! a = Some size;
    wb_mapped : ∀ a,
      is_Some (registry w h !! a) → a ≠ MAP_FAILED → mapped (kernel w) a;
    wb_positive : ∀ a size,
      registry w h !! a = Some size → a ≠ MAP_FAILED → 0 < size }.

(** ** Ownership, layout and exclusiveness *)

(** The use counts of the two shared objects of a handle. *)
Definition owners {T : ctype} (w : World) (a : Allocator T)
  : option (nat * nat) :=
  s ← size_maps w !! sizes_ a;
  f ← free_maps w !! free_blocks_ a;
  Some (use_count s, use_count f).

(** The length of the backing file is a whole number of pages. *)
Definition paged_file {U : ctype} (h : Allocator U) (w : World) : Prop :=
  ∃ c, 0 ≤ c ∧ backing_length w h = c * kPageSize.

(** A request whose rounded size fits the [off_t] offset of [lseek]. *)
Definition fits_off_t (op : Op) : Prop :=
  match op with
  | OAllocate T n _ => block_size T n ≤ 2 ^ 63
  | ODeallocate _ _ _ => True
  end.

(** [m] is the mapping of the block at [a] of size [size]. *)
Definition block_mapping (k : Posix.Kernel) (a size : Z) (m : Posix.Mapping)
  : Prop :=
  m ∈ Posix.mappings k ∧ Posix.m_addr m = a ∧ Posix.m_len m = size.

(** Apart from [MAP_FAILED], no live address is free, no address is free
    twice, and the null pointer is not live. *)
Record exclusive {U : ctype} (h : Allocator U) (w : World)
    (live : gmap Z Z) : Prop := mkExclusive
  { ex_null : live !! NULL = None;
    ex_live : ∀ a size vec,
      is_Some (live !! a) → a ≠ MAP_FAILED →
      free_list w h !! size = Some vec → a ∉ vec;
    ex_once : ∀ size vec i j a,
      free_list w h !! size = Some vec →
      vec !! i = Some a → vec !! j = Some a → a ≠ MAP_FAILED → i = j }.

(** Apart from [MAP_FAILED], every registered block is a mapping of its
    registered size at a page boundary, and no two of them overlap. *)
Record apart {U : ctype} (h : Allocator U) (w : World) : Prop := mkApart
  { ap_mapping : ∀ a size,
      registry w h !! a = Some size → a ≠ MAP_FAILED →
      a mod kPageSize = 0 ∧ ∃ m, block_mapping (kernel w) a size m;
    ap_apart : ∀ a b sa sb,
      registry w h !! a = Some sa → registry w h !! b = Some sb →
      a ≠ MAP_FAILED → b ≠ MAP_FAILED → a ≠ b →
      a + sa ≤ b ∨ b + sb ≤ a }.

(** Apart from [MAP_FAILED], every registered block maps a range of the
    backing file that starts at a page boundary and lies within the file,
    and no two of these ranges overlap. *)
Record in_file {U : ctype} (h : Allocator U) (w : World) : Prop := mkInFile
  { if_within : ∀ a size m,
      registry w h !! a = Some size → a ≠ MAP_FAILED →
      block_mapping (kernel w) a size m →
      Some (Posix.m_path m)
      = (Posix.of_path <$> Posix.fdtable (kernel w) !! fd_ h) ∧
      Posix.m_off m mod kPageSize = 0 ∧
      0 ≤ Posix.m_off m ∧ Posix.m_off m + size ≤ backing_length w h;
    if_apart : ∀ a b sa sb ma mb,
      registry w h !! a = Some sa → registry w h !! b = Some sb →
      a ≠ MAP_FAILED → b ≠ MAP_FAILED → a ≠ b →
      block_mapping (kernel w) a sa ma → block_mapping (kernel w) b sb mb →
      Posix.m_off ma + sa ≤ Posix.m_off mb ∨
      Posix.m_off mb + sb ≤ Posix.m_off ma }.

(** * Properties *)

(** The page size is a positive power of two (it divides [2^64]). *)
Hypothesis kPageSize_pos : 0 < kPageSize.
Hypothesis kPageSize_pow2 : (kPageSize | 2 ^ 64).

(** ** Rounding to pages *)

Lemma size_t_range x : 0 ≤ size_t x < 2 ^ 64.
Proof. unfold size_t. apply Z.mod_pos_bound. lia. Qed.

Lemma size_t_small x : 0 ≤ x ≤ SIZE_MAX → size_t x = x.
Proof. unfold size_t, SIZE_MAX. intros. apply Z.mod_small. lia. Qed.

Lemma block_size_range T n : 0 ≤ block_size T n < 2 ^ 64.
Proof.
  unfold block_size. destruct (negb _); apply size_t_range.
Qed.

Lemma size_t_multiple c :
  ∃ c', 0 ≤ c' ∧ size_t (c * kPageSize) = c' * kPageSize.
Proof.
  destruct kPageSize_pow2 as [q Hq].
  assert (Hd : (kPageSize | size_t (c * kPageSize))).
  { unfold size_t. rewrite Z.mod_eq by lia. apply Z.divide_sub_r.
    - by apply Z.divide_mul_r.
    - apply Z.divide_mul_l. rewrite Hq. by apply Z.divide_mul_r. }
  destruct Hd as [c' Hc']. exists c'. split; [|done].
  pose proof (size_t_range (c * kPageSize)). nia.
Qed.

Lemma block_size_multiple T n :
  ∃ c, 0 ≤ c ∧ block_size T n = c * kPageSize.
Proof.
  unfold block_size.
  destruct (Z.eqb_spec (size_t (n * sizeof T) mod kPageSize) 0) as [H0|H0];
    simpl.
  - exists (size_t (n * sizeof T) / kPageSize).
    pose proof (size_t_range (n * sizeof T)).
    pose proof (Z.div_mod (size_t (n * sizeof T)) kPageSize).
    split; [apply Z.div_pos; lia | lia].
  - apply size_t_multiple.
Qed.

Lemma block_size_exact T n :
  0 ≤ n * sizeof T ≤ max_block →
  smallest_multiple_ge kPageSize (n * sizeof T) (block_size T n).
Proof.
  unfold max_block. intros Hb.
  assert (Hmax : SIZE_MAX / kPageSize * kPageSize ≤ SIZE_MAX).
  { pose proof (Z.mul_div_le SIZE_MAX kPageSize). lia. }
  unfold block_size. rewrite size_t_small by lia.
  set (b := n * sizeof T) in *.
  pose proof (Z.div_mod b kPageSize) as Hdm.
  pose proof (Z.mod_pos_bound b kPageSize kPageSize_pos) as Hm.
  destruct (Z.eqb_spec (b mod kPageSize) 0) as [H0|H0]; simpl.
  - split; [|split]; [|lia|auto].
    exists (b / kPageSize). lia.
  - assert (Hq : b / kPageSize + 1 ≤ SIZE_MAX / kPageSize).
    { assert (b / kPageSize ≤ SIZE_MAX / kPageSize)
        by (apply Z.div_le_mono; lia).
      destruct (decide (b / kPageSize = SIZE_MAX / kPageSize)) as [He|]; [|lia].
      rewrite <- He in Hb. lia. }
    assert (0 ≤ b / kPageSize) by (apply Z.div_pos; lia).
    rewrite size_t_small by nia.
    split; [|split].
    + by apply Z.divide_mul_r.
    + nia.
    + intros m [z ->] Hz.
      assert (b / kPageSize < z) by nia. nia.
Qed.

Lemma block_size_positive T n :
  0 < block_size T n ↔ 0 < size_t (n * sizeof T) ≤ 2 ^ 64 - kPageSize.
Proof.
  destruct kPageSize_pow2 as [q Hq].
  unfold block_size.
  pose proof (size_t_range (n * sizeof T)) as Hr.
  set (b := size_t (n * sizeof T)) in *.
  pose proof (Z.div_mod b kPageSize) as Hdm.
  pose proof (Z.mod_pos_bound b kPageSize kPageSize_pos) as Hm.
  assert (0 ≤ b / kPageSize) by (apply Z.div_pos; lia).
  destruct (Z.eqb_spec (b mod kPageSize) 0) as [H0|H0]; simpl.
  - split; [|lia]. intros. split; [done|].
    assert (b / kPageSize < q) by nia. nia.
  - assert (Hle : b / kPageSize + 1 ≤ q) by nia.
    destruct (decide (b / kPageSize + 1 = q)) as [He|Hne].
    + rewrite He, <- Hq. unfold size_t. rewrite Z.mod_same by lia.
      split; [lia|]. intros. nia.
    + rewrite size_t_small by (unfold SIZE_MAX; nia).
      split; [|nia]. intros. nia.
Qed.

(** ** The system calls *)

Lemma lseek_end_inv fd off k r k' :
  Posix.lseek_end fd off k = (r, k') →
  Posix.files k' = Posix.files k ∧ Posix.mappings k' = Posix.mappings k ∧
  (r = -1 → k' = k).
Proof.
  unfold Posix.lseek_end. intros H.
  destruct (Posix.fdtable k !! fd); [|by simplify_eq].
  case_bool_decide; simplify_eq; simpl; [|done].
  split_and!; [done..|lia].
Qed.

Lemma write1_inv fd ok k r k' :
  Posix.write1 fd ok k = (r, k') →
  Posix.mappings k' = Posix.mappings k ∧ (r ≠ 1 → k' = k).
Proof.
  unfold Posix.write1. intros H.
  destruct (Posix.fdtable k !! fd); [|by simplify_eq].
  destruct ok; by simplify_eq.
Qed.

Lemma mmap_inv pagesize len fd off choice k p k' :
  Posix.mmap pagesize len fd off choice k = (p, k') →
  (p = MAP_FAILED ∧ k' = k) ∨
  (p ≠ MAP_FAILED ∧ ¬ mapped k p ∧ 0 < len ∧
   Posix.files k' = Posix.files k ∧ Posix.fdtable k' = Posix.fdtable k ∧
   ∃ m, Posix.mappings k' = m :: Posix.mappings k ∧
        Posix.m_addr m = p ∧ Posix.m_len m = len).
Proof.
  unfold Posix.mmap. intros H.
  destruct (Posix.fdtable k !! fd) as [f|]; [|left; by simplify_eq].
  destruct (_ && _) eqn:Hc; [|left; by simplify_eq].
  right. simplify_eq.
  apply andb_true_iff in Hc as [Hc Hd]. apply andb_true_iff in Hc as [Ha Hb].
  apply bool_decide_eq_true in Ha as (Hl & _ & _).
  apply bool_decide_eq_true in Hb as (Hp & _ & Hs).
  split_and!; simpl; try done.
  - unfold MAP_FAILED. lia.
  - intros (m & Hm & Hma & Hml).
    rewrite forallb_forall in Hd. apply list_elem_of_In in Hm.
    specialize (Hd _ Hm). unfold Posix.disjoint_from in Hd.
    apply bool_decide_eq_true in Hd. lia.
  - eexists. split; [done|]. done.
Qed.

(** ** The two member functions, equation by equation *)

Lemma deallocate_unfold {T} (a : Allocator T) p n w :
  deallocate a p n w =
  match size_maps w !! sizes_ a, free_maps w !! free_blocks_ a with
  | Some s, Some f =>
      let to_free := default 0 (target s !! p) in
      Some (tt,
            mkWorld (kernel w)
              (<[sizes_ a := mkShared (use_count s)
                               (<[p := to_free]> (target s))]> (size_maps w))
              (<[free_blocks_ a :=
                   mkShared (use_count f)
                     (<[to_free := default [] (target f !! to_free) ++ [p]]>
                        (target f))]> (free_maps w))
              (allocators w) (default_allocator w))
  | _, _ => None
  end.
Proof.
  unfold deallocate, mbind, M_bind, get_sizes, put_sizes, get_free, put_free,
    subscript.
  destruct (size_maps w !! sizes_ a) as [[cs sm]|] eqn:Hs; simpl; [|done].
  destruct (sm !! p) as [s|] eqn:Hp; simpl; rewrite Hs; simpl.
  - destruct (free_maps w !! free_blocks_ a) as [[cf fm]|] eqn:Hf; simpl;
      [|done].
    rewrite (insert_id sm p s) by done.
    destruct (fm !! s) as [vec|] eqn:Hv; simpl; rewrite Hf; simpl; [done|].
    by rewrite insert_insert_eq.
  - destruct (free_maps w !! free_blocks_ a) as [[cf fm]|] eqn:Hf; simpl;
      [|done].
    destruct (fm !! 0) as [vec|] eqn:Hv; simpl; rewrite Hf; simpl; [done|].
    by rewrite insert_insert_eq.
Qed.


Lemma subscript_nil (m : gmap Z (list Z)) k :
  default [] (m !! k) = [] → subscript [] k m = ([], <[k := []]> m).
Proof.
  unfold subscript. destruct (m !! k) as [v|] eqn:Hk; simpl; [|done].
  intros ->. by rewrite insert_id.
Qed.

Lemma snoc_or_nil (l : list Z) : l = [] ∨ ∃ l' x, l = l' ++ [x].
Proof.
  induction l as [|y l IH] using rev_ind; [by left|right; eauto].
Qed.

Lemma allocate_hit {T} (a : Allocator T) n os w f vec x :
  free_maps w !! free_blocks_ a = Some f →
  target f !! block_size T n = Some (vec ++ [x]) →
  allocate a n os w =
  Some (x, mkWorld (kernel w) (size_maps w)
             (<[free_blocks_ a :=
                  mkShared (use_count f)
                    (<[block_size T n := vec]> (target f))]> (free_maps w))
             (allocators w) (default_allocator w)).
Proof.
  intros Hf Hv.
  unfold allocate, mbind, M_bind, get_free, put_free, subscript.
  rewrite Hf, Hv. rewrite bool_decide_eq_false_2 by (by destruct vec).
  simpl. rewrite Hf. simpl. by rewrite last_last, removelast_last.
Qed.

(** Every way a call of [allocate] can come back. *)
Lemma allocate_inv {T} (a : Allocator T) n os w p w' :
  allocate a n os w = Some (p, w') →
  ∃ f, free_maps w !! free_blocks_ a = Some f ∧
    allocators w' = allocators w ∧
    default_allocator w' = default_allocator w ∧
    ((∃ vec, target f !! block_size T n = Some (vec ++ [p]) ∧
        kernel w' = kernel w ∧ size_maps w' = size_maps w ∧
        free_maps w' =
          <[free_blocks_ a :=
              mkShared (use_count f)
                (<[block_size T n := vec]> (target f))]> (free_maps w))
     ∨ (default [] (target f !! block_size T n) = [] ∧
        free_maps w' =
          <[free_blocks_ a :=
              mkShared (use_count f)
                (<[block_size T n := []]> (target f))]> (free_maps w) ∧
        ((p = NULL ∧ size_maps w' = size_maps w ∧
          Posix.mappings (kernel w') = Posix.mappings (kernel w))
         ∨ (∃ s, size_maps w !! sizes_ a = Some s ∧
              size_maps w' =
                <[sizes_ a :=
                    mkShared (use_count s)
                      (<[p := block_size T n]> (target s))]> (size_maps w) ∧
              ((p = MAP_FAILED ∧
                Posix.mappings (kernel w') = Posix.mappings (kernel w))
               ∨ (p ≠ MAP_FAILED ∧ ¬ mapped (kernel w) p ∧
                  ∃ m, Posix.mappings (kernel w')
                       = m :: Posix.mappings (kernel w) ∧
                       Posix.m_addr m = p ∧ 0 < Posix.m_len m ∧
                       Posix.m_len m = block_size T n)))))).
Proof.
  intros H.
  destruct (free_maps w !! free_blocks_ a) as [f|] eqn:Hf; cycle 1.
  { unfold allocate, mbind, M_bind, get_free in H. by rewrite Hf in H. }
  exists f. split; [done|].
  destruct (snoc_or_nil (default [] (target f !! block_size T n)))
    as [Hnil|(vec & x & Hv)].
  - unfold allocate, mbind, M_bind, get_free, put_free, get_sizes, put_sizes,
      sys, mret, M_ret in H.
    rewrite Hf in H. simpl in H. rewrite (subscript_nil _ _ Hnil) in H.
    simpl in H. rewrite Hf in H. simpl in H.
    destruct (Posix.lseek_end (fd_ a) 0 (kernel w)) as [prev k1] eqn:H1.
    simpl in H.
    destruct (Posix.lseek_end (fd_ a) _ k1) as [r k2] eqn:H2. simpl in H.
    apply lseek_end_inv in H1 as (_ & Hm1 & _).
    apply lseek_end_inv in H2 as (_ & Hm2 & _).
    destruct (r =? -1); simpl in H.
    { simplify_eq. simpl. split_and!; try done. right. split_and!; try done.
      left. split_and!; try done. congruence. }
    destruct (Posix.write1 (fd_ a) (write_ok os) k2) as [r' k3] eqn:H3.
    simpl in H. apply write1_inv in H3 as (Hm3 & _).
    destruct (r' =? 1); simpl in H; cycle 1.
    { simplify_eq. simpl. split_and!; try done. right. split_and!; try done.
      left. split_and!; try done. congruence. }
    destruct (Posix.mmap _ _ _ _ _ k3) as [addr k4] eqn:H4. simpl in H.
    destruct (size_maps w !! sizes_ a) as [s|] eqn:Hs; [|done].
    simpl in H. rewrite Hs in H. simpl in H. simplify_eq. simpl.
    split_and!; try done.
    right. split_and!; try done. right. exists s. split_and!; try done.
    apply mmap_inv in H4 as [[-> ->]|(Hne & Hfresh & Hlen & _ & _ & m & Hm4 & Hma & Hml)].
    + left. split; [done|congruence].
    + right. split_and!; [done|..].
      * intros (m' & Hin & Ha & Hl). apply Hfresh. exists m'.
        split_and!; try done. by rewrite Hm3, Hm2, Hm1.
      * exists m. split_and!; [|done|lia|done]. rewrite Hm4. congruence.
  - destruct (target f !! block_size T n) as [v|] eqn:Hb; simpl in Hv;
      [|by destruct vec].
    subst v. rewrite (allocate_hit a n os w f vec x Hf Hb) in H.
    simplify_eq. simpl. split_and!; try done. left. by exists vec.
Qed.

(** ** The same calls, seen through the handle's registry and free list *)

Lemma same_arena_obs {T U} (a : Allocator T) (b : Allocator U) w :
  same_arena a b →
  registry w a = registry w b ∧ free_list w a = free_list w b ∧
  (valid w a ↔ valid w b).
Proof.
  intros (_ & Hs & Hf). unfold registry, free_list, valid.
  by rewrite Hs, Hf.
Qed.

Lemma valid_lookup {T} (a : Allocator T) w :
  valid w a →
  ∃ s f, size_maps w !! sizes_ a = Some s ∧
         free_maps w !! free_blocks_ a = Some f ∧
         registry w a = target s ∧ free_list w a = target f.
Proof.
  intros [[s Hs] [f Hf]]. exists s, f. unfold registry, free_list.
  by rewrite Hs, Hf.
Qed.

Lemma deallocate_obs {T} (a : Allocator T) p n w :
  valid w a →
  ∃ w', deallocate a p n w = Some (tt, w') ∧
    valid w' a ∧ kernel w' = kernel w ∧
    registry w' a = <[p := default 0 (registry w a !! p)]> (registry w a) ∧
    free_list w' a =
      <[default 0 (registry w a !! p) :=
          bucket w a (default 0 (registry w a !! p)) ++ [p]]> (free_list w a).
Proof.
  intros Hv. destruct (valid_lookup a w Hv) as (s & f & Hs & Hf & Hr & Hl).
  rewrite deallocate_unfold, Hs, Hf. eexists. split; [done|].
  unfold valid, registry, free_list, bucket, free_list. simpl.
  rewrite !lookup_insert_eq, Hs, Hf. simpl. split_and!; eauto.
Qed.

Lemma allocate_obs {T} (a : Allocator T) n os w p w' :
  allocate a n os w = Some (p, w') →
  valid w a →
  valid w' a ∧
  ((∃ vec, free_list w a !! block_size T n = Some (vec ++ [p]) ∧
      kernel w' = kernel w ∧ registry w' a = registry w a ∧
      free_list w' a = <[block_size T n := vec]> (free_list w a))
   ∨ (bucket w a (block_size T n) = [] ∧
      free_list w' a = <[block_size T n := []]> (free_list w a) ∧
      ((p = NULL ∧ registry w' a = registry w a ∧
        Posix.mappings (kernel w') = Posix.mappings (kernel w))
       ∨ (registry w' a = <[p := block_size T n]> (registry w a) ∧
          ((p = MAP_FAILED ∧
            Posix.mappings (kernel w') = Posix.mappings (kernel w))
           ∨ (p ≠ MAP_FAILED ∧ ¬ mapped (kernel w) p ∧
              ∃ m, Posix.mappings (kernel w')
                   = m :: Posix.mappings (kernel w) ∧
                   Posix.m_addr m = p ∧ 0 < Posix.m_len m ∧
                   Posix.m_len m = block_size T n)))))).
Proof.
  intros H Hv. destruct (valid_lookup a w Hv) as (s & f & Hs & Hf & Hr & Hl).
  apply allocate_inv in H as (f' & Hf' & _ & _ & H).
  rewrite Hf in Hf'. simplify_eq.
  unfold valid, bucket, registry, free_list in *.
  destruct H as [(vec & Hb & Hk & Hsz & Hfm)
                |(Hnil & Hfm & [(-> & Hsz & Hm)|(s' & Hs' & Hsz & Hm)])];
    rewrite Hfm, ?Hsz, ?lookup_insert_eq, ?Hs, ?Hf; simpl.
  - split; [eauto|]. left. by exists vec.
  - split; [eauto|]. right. split_and!; try done. by left.
  - rewrite Hs in Hs'. simplify_eq. rewrite ?lookup_insert_eq.
    split; [eauto|]. right. simpl. split_and!; try done. by right.
Qed.

(** On a handle that is alive, [allocate] always returns. *)
Lemma allocate_total {T} (a : Allocator T) n os w :
  valid w a → is_Some (allocate a n os w).
Proof.
  intros Hv.
  destruct (valid_lookup a w Hv) as (s & f & Hs & Hf & Hr & Hl).
  destruct (snoc_or_nil (default [] (target f !! block_size T n)))
    as [Hnil|(vec & x & Hx)].
  - unfold allocate, mbind, M_bind, get_free, put_free, get_sizes, put_sizes,
      sys, mret, M_ret.
    rewrite Hf. simpl. rewrite (subscript_nil _ _ Hnil). simpl.
    rewrite Hf. simpl.
    destruct (Posix.lseek_end (fd_ a) 0 (kernel w)) as [prev k1]. simpl.
    destruct (Posix.lseek_end (fd_ a) _ k1) as [r k2]. simpl.
    destruct (r =? -1); simpl; [eauto|].
    destruct (Posix.write1 (fd_ a) (write_ok os) k2) as [r' k3]. simpl.
    destruct (r' =? 1); simpl; [|eauto].
    destruct (Posix.mmap _ _ _ _ _ k3) as [addr k4]. simpl.
    rewrite Hs. simpl. rewrite Hs. simpl. eauto.
  - destruct (target f !! block_size T n) as [v|] eqn:Hb; simpl in Hx;
      [|by destruct vec].
    subst v. rewrite (allocate_hit a n os w f vec x Hf Hb). eauto.
Qed.

(** ** What the histories preserve *)

Lemma mapped_same k k' a :
  Posix.mappings k' = Posix.mappings k → mapped k a → mapped k' a.
Proof. unfold mapped. by intros ->. Qed.

Lemma mapped_cons k k' m a :
  Posix.mappings k' = m :: Posix.mappings k → mapped k a → mapped k' a.
Proof.
  unfold mapped. intros -> (m' & Hin & Ha & Hl). exists m'.
  split_and!; try done. by apply list_elem_of_further.
Qed.

Lemma step_allocate {U} (h : Allocator U) contract T n os w live s' :
  step h contract (OAllocate T n os) (w, live) = Some s' →
  ∃ p w', allocate (at_type T h) n os w = Some (p, w') ∧
          s' = (w', if p =? NULL then live else <[p := block_size T n]> live).
Proof.
  simpl. destruct (allocate _ _ _ _) as [[p w']|]; simpl; [|done].
  intros. simplify_eq. eauto.
Qed.

Lemma step_deallocate {U} (h : Allocator U) contract T p n w live s' :
  step h contract (ODeallocate T p n) (w, live) = Some s' →
  (contract = true → is_Some (live !! p)) ∧
  ∃ w', deallocate (at_type T h) p n w = Some (tt, w') ∧
        s' = (w', delete p live).
Proof.
  simpl. destruct contract; simpl.
  - case_bool_decide; simpl; [|done].
    destruct (deallocate _ _ _ _) as [[[] w']|]; simpl; [|done].
    intros. simplify_eq. eauto.
  - destruct (deallocate _ _ _ _) as [[[] w']|]; simpl; [|done].
    intros. simplify_eq. split; [done|]. eauto.
Qed.

Lemma live_after_allocate (p size : Z) (live : gmap Z Z) a :
  is_Some ((if p =? NULL then live else <[p := size]> live) !! a) →
  a = p ∨ is_Some (live !! a).
Proof.
  destruct (p =? NULL); [by right|].
  intros [->|?]%lookup_insert_is_Some'; [by left|by right].
Qed.

Lemma step_consistent {U} (h : Allocator U) contract op w live w' live' :
  consistent h w live →
  step h contract op (w, live) = Some (w', live') →
  consistent h w' live'.
Proof.
  intros [Hv Hlive Hfree] Hstep. destruct op as [T n os|T p n].
  - apply step_allocate in Hstep as (p & w1 & Ha & [= -> ->]).
    apply allocate_obs in Ha as [Hv' Ha]; [|done].
    change (valid w1 h) in Hv'.
    change (registry w1 (at_type T h)) with (registry w1 h) in Ha.
    change (registry w (at_type T h)) with (registry w h) in Ha.
    change (free_list w1 (at_type T h)) with (free_list w1 h) in Ha.
    change (free_list w (at_type T h)) with (free_list w h) in Ha.
    change (bucket w (at_type T h)) with (bucket w h) in Ha.
    destruct Ha as [(vec & Hb & Hk & Hr & Hf)
                   |(Hnil & Hf & [(-> & Hr & Hm)|(Hr & Hm)])].
    + split; [done|..]; rewrite ?Hr, ?Hf.
      * intros a [->|Ha]%live_after_allocate; [|by auto].
        eapply Hfree; [done|]. apply elem_of_app. right.
        apply list_elem_of_here.
      * intros size v a Hl Hin.
        destruct (decide (block_size T n = size)) as [<-|Hne].
        -- rewrite lookup_insert_eq in Hl. simplify_eq.
           eapply Hfree; [done|]. apply elem_of_app. by left.
        -- rewrite lookup_insert_ne in Hl by done. eauto.
    + split; [done|..]; rewrite ?Hr, ?Hf.
      * simpl. done.
      * intros size v a Hl Hin.
        destruct (decide (block_size T n = size)) as [<-|Hne].
        -- rewrite lookup_insert_eq in Hl. simplify_eq.
           by apply elem_of_nil in Hin.
        -- rewrite lookup_insert_ne in Hl by done. eauto.
    + split; [done|..]; rewrite ?Hr, ?Hf.
      * intros a [->|Ha]%live_after_allocate.
        -- rewrite lookup_insert_eq. eauto.
        -- apply lookup_insert_is_Some'. auto.
      * intros size v a Hl Hin. apply lookup_insert_is_Some'. right.
        destruct (decide (block_size T n = size)) as [<-|Hne].
        -- rewrite lookup_insert_eq in Hl. simplify_eq.
           by apply elem_of_nil in Hin.
        -- rewrite lookup_insert_ne in Hl by done. eauto.
  - apply step_deallocate in Hstep as (_ & w1 & Hd & [= -> ->]).
    destruct (deallocate_obs (at_type T h) p n w Hv)
      as (w2 & Hd' & Hv' & Hk & Hr & Hf).
    rewrite Hd in Hd'. injection Hd' as <-.
    change (valid w1 h) in Hv'.
    change (registry w1 (at_type T h)) with (registry w1 h) in Hr.
    change (registry w (at_type T h)) with (registry w h) in Hr, Hf.
    change (free_list w1 (at_type T h)) with (free_list w1 h) in Hf.
    change (free_list w (at_type T h)) with (free_list w h) in Hf.
    change (bucket w (at_type T h)) with (bucket w h) in Hf.
    split; [done|..]; rewrite ?Hr, ?Hf.
    + intros a [_ Ha]%lookup_delete_is_Some. apply lookup_insert_is_Some'.
      right. by apply Hlive.
    + intros size v a Hl Hin. apply lookup_insert_is_Some'.
      destruct (decide (default 0 (registry w h !! p) = size)) as [<-|Hne].
      * rewrite lookup_insert_eq in Hl. simplify_eq.
        apply elem_of_app in Hin as [Hin|Hin].
        -- right. unfold bucket in Hin.
           destruct (free_list w h !! _) as [v|] eqn:Hv0; simpl in Hin;
             [eauto|by apply elem_of_nil in Hin].
        -- left. apply list_elem_of_singleton in Hin. by subst.
      * rewrite lookup_insert_ne in Hl by done. eauto.
Qed.

Lemma step_page_sized {U} (h : Allocator U) contract op w live w' live' :
  valid w h → page_sized h w →
  step h contract op (w, live) = Some (w', live') →
  page_sized h w'.
Proof.
  intros Hv Hsz Hstep. destruct op as [T n os|T p n].
  - apply step_allocate in Hstep as (p & w1 & Ha & [= -> ->]).
    apply allocate_obs in Ha as [_ Ha]; [|done].
    change (registry w1 (at_type T h)) with (registry w1 h) in Ha.
    change (registry w (at_type T h)) with (registry w h) in Ha.
    destruct Ha as [(vec & _ & _ & Hr & _)
                   |(_ & _ & [(_ & Hr & _)|(Hr & _)])];
      unfold page_sized; rewrite Hr; [done..|].
    intros a size Hl. destruct (decide (p = a)) as [->|Hne].
    + rewrite lookup_insert_eq in Hl. simplify_eq.
      apply block_size_multiple.
    + rewrite lookup_insert_ne in Hl by done. eauto.
  - apply step_deallocate in Hstep as (_ & w1 & Hd & [= -> ->]).
    destruct (deallocate_obs (at_type T h) p n w Hv)
      as (w2 & Hd' & _ & _ & Hr & _).
    rewrite Hd in Hd'. injection Hd' as <-.
    change (registry w1 (at_type T h)) with (registry w1 h) in Hr.
    change (registry w (at_type T h)) with (registry w h) in Hr.
    unfold page_sized. rewrite Hr.
    intros a size Hl. destruct (decide (p = a)) as [->|Hne].
    + rewrite lookup_insert_eq in Hl. simplify_eq.
      destruct (registry w h !! a) as [s0|] eqn:Hs0; simpl; [eauto|].
      exists 0. lia.
    + rewrite lookup_insert_ne in Hl by done. eauto.
Qed.

Lemma step_well_bucketed {U} (h : Allocator U) op w live w' live' :
  consistent h w live → well_bucketed h w live →
  step h true op (w, live) = Some (w', live') →
  well_bucketed h w' live'.
Proof.
  intros [Hv Hlive Hfree] [Hlv Hb Hmap Hpos] Hstep.
  destruct op as [T n os|T p n].
  - apply step_allocate in Hstep as (p & w1 & Ha & [= -> ->]).
    apply allocate_obs in Ha as [Hv' Ha]; [|done].
    change (registry w1 (at_type T h)) with (registry w1 h) in Ha.
    change (registry w (at_type T h)) with (registry w h) in Ha.
    change (free_list w1 (at_type T h)) with (free_list w1 h) in Ha.
    change (free_list w (at_type T h)) with (free_list w h) in Ha.
    change (bucket w (at_type T h)) with (bucket w h) in Ha.
    destruct Ha as [(vec & Hl & Hk & Hr & Hf)
                   |(Hnil & Hf & [(-> & Hr & Hm)|(Hr & Hm)])].
    + split; rewrite ?Hr, ?Hf, ?Hk; [| |done..].
      * intros a size Hl' Hne. destruct (p =? NULL); [by eauto|].
        destruct (decide (p = a)) as [->|Hpa].
        -- rewrite lookup_insert_eq in Hl'. simplify_eq.
           eapply Hb; [done| |done]. apply elem_of_app. right.
           apply list_elem_of_here.
        -- rewrite lookup_insert_ne in Hl' by done. eauto.
      * intros size v a Hl' Hin Hne.
        destruct (decide (block_size T n = size)) as [<-|Hns].
        -- rewrite lookup_insert_eq in Hl'. simplify_eq.
           eapply Hb; [done| |done]. apply elem_of_app. by left.
        -- rewrite lookup_insert_ne in Hl' by done. eauto.
    + split; rewrite ?Hr, ?Hf; [done| | |done].
      * intros size v a Hl' Hin Hne.
        destruct (decide (block_size T n = size)) as [<-|Hns].
        -- rewrite lookup_insert_eq in Hl'. simplify_eq.
           by apply elem_of_nil in Hin.
        -- rewrite lookup_insert_ne in Hl' by done. eauto.
      * intros a Ha Hne. eapply mapped_same; eauto.
    + assert (Hold : ∀ a, is_Some (registry w h !! a) →
                a ≠ MAP_FAILED → p ≠ a).
      { intros a Ha Hne ->.
        destruct Hm as [[-> _]|(_ & Hfresh & _)]; [done|].
        by apply Hfresh, Hmap. }
      split; rewrite ?Hr, ?Hf.
      * intros a size Hl' Hne.
        destruct (decide (p = a)) as [->|Hpa].
        -- rewrite lookup_insert_eq.
           destruct (a =? NULL); [|by rewrite lookup_insert_eq in Hl'].
           exfalso. eapply Hold; [|done..]. apply Hlive. eauto.
        -- rewrite lookup_insert_ne by done. apply Hlv; [|done].
           destruct (p =? NULL); [done|].
           by rewrite lookup_insert_ne in Hl'.
      * intros size v a Hl' Hin Hne.
        destruct (decide (block_size T n = size)) as [<-|Hns].
        -- rewrite lookup_insert_eq in Hl'. simplify_eq.
           by apply elem_of_nil in Hin.
        -- rewrite lookup_insert_ne in Hl' by done.
           rewrite lookup_insert_ne by eauto. eauto.
      * intros a Ha Hne.
        destruct Hm as [[-> Hm]|(_ & Hfresh & m & Hm & Hma & Hml & _)].
        -- rewrite lookup_insert_ne in Ha by done.
           eapply mapped_same; eauto.
        -- destruct (decide (p = a)) as [->|Hpa].
           ++ exists m. rewrite Hm. split_and!; try done.
              apply list_elem_of_here.
           ++ rewrite lookup_insert_ne in Ha by done.
              eapply mapped_cons; eauto.
      * intros a size Hl' Hne. destruct (decide (p = a)) as [->|Hpa].
        -- rewrite lookup_insert_eq in Hl'. simplify_eq.
           destruct Hm as [[-> _]|(_ & _ & m & _ & _ & Hml & <-)]; done.
        -- rewrite lookup_insert_ne in Hl' by done. eauto.
  - apply step_deallocate in Hstep as (Hin & w1 & Hd & [= -> ->]).
    destruct (deallocate_obs (at_type T h) p n w Hv)
      as (w2 & Hd' & Hv' & Hk & Hr & Hf).
    rewrite Hd in Hd'. injection Hd' as <-.
    change (registry w1 (at_type T h)) with (registry w1 h) in Hr.
    change (registry w (at_type T h)) with (registry w h) in Hr, Hf.
    change (free_list w1 (at_type T h)) with (free_list w1 h) in Hf.
    change (free_list w (at_type T h)) with (free_list w h) in Hf.
    change (bucket w (at_type T h)) with (bucket w h) in Hf.
    destruct (Hlive p (Hin eq_refl)) as [s Hs].
    rewrite Hs in Hr, Hf. simpl in Hr, Hf.
    rewrite insert_id in Hr by done.
    split; rewrite ?Hr, ?Hf, ?Hk; [| |done..].
    { intros a size [_ Hl']%lookup_delete_Some Hne. eauto. }
    intros size v a Hl' Hia Hne.
    destruct (decide (s = size)) as [<-|Hns].
    + rewrite lookup_insert_eq in Hl'. simplify_eq.
      apply elem_of_app in Hia as [Hia|Hia].
      * unfold bucket in Hia.
        destruct (free_list w h !! s) as [v|] eqn:Hv0; simpl in Hia;
          [eauto|by apply elem_of_nil in Hia].
      * apply list_elem_of_singleton in Hia. by subst.
    + rewrite lookup_insert_ne in Hl' by done. eauto.
Qed.

Lemma run_cons {U} (h : Allocator U) contract op ops s :
  run h contract (op :: ops) s =
  s' ← step h contract op s; run h contract ops s'.
Proof. done. Qed.

Lemma run_consistent {U} (h : Allocator U) contract ops w live w' live' :
  consistent h w live →
  run h contract ops (w, live) = Some (w', live') →
  consistent h w' live'.
Proof.
  revert w live. induction ops as [|op ops IH]; intros w live Hc Hrun.
  - by simplify_eq/=.
  - rewrite run_cons in Hrun.
    destruct (step h contract op (w, live)) as [[w1 live1]|] eqn:Hs;
      [|done].
    simpl in Hrun. eauto using step_consistent.
Qed.

Lemma run_well_bucketed {U} (h : Allocator U) ops w live w' live' :
  consistent h w live → well_bucketed h w live →
  run h true ops (w, live) = Some (w', live') →
  well_bucketed h w' live'.
Proof.
  revert w live. induction ops as [|op ops IH]; intros w live Hc Hb Hrun.
  - by simplify_eq/=.
  - rewrite run_cons in Hrun.
    destruct (step h true op (w, live)) as [[w1 live1]|] eqn:Hs; [|done].
    simpl in Hrun.
    eauto using step_consistent, step_well_bucketed.
Qed.

Lemma run_page_sized {U} (h : Allocator U) contract ops w live w' live' :
  consistent h w live → page_sized h w →
  run h contract ops (w, live) = Some (w', live') →
  page_sized h w'.
Proof.
  revert w live. induction ops as [|op ops IH]; intros w live Hc Hp Hrun.
  - by simplify_eq/=.
  - rewrite run_cons in Hrun.
    destruct (step h contract op (w, live)) as [[w1 live1]|] eqn:Hs;
      [|done].
    simpl in Hrun.
    eapply IH; [| |done]; [by eapply step_consistent|].
    eapply step_page_sized; [|done..]. by destruct Hc.
Qed.

Lemma run_app {U} (h : Allocator U) contract ops1 ops2 s :
  run h contract (ops1 ++ ops2) s =
  s' ← run h contract ops1 s; run h contract ops2 s'.
Proof.
  revert s. induction ops1 as [|op ops1 IH]; intros s; [done|].
  rewrite <- app_comm_cons, !run_cons.
  destruct (step h contract op s) as [s1|]; simpl; [apply IH|done].
Qed.

Lemma New_inv filename fd_choice w0 l w :
  New filename fd_choice w0 = Some (Some l, w) →
  ∃ h, allocators w !! l = Some h ∧
       size_maps w !! sizes_ h = Some (mkShared 1 ∅) ∧
       free_maps w !! free_blocks_ h = Some (mkShared 1 ∅).
Proof.
  unfold New, mbind, M_bind, sys, new_sizes, new_free, new_allocator, mret,
    M_ret.
  destruct (Posix.open filename fd_choice (kernel w0)) as [r k]. simpl.
  destruct (r =? -1); simpl; intros H; simplify_eq. simpl.
  eexists. rewrite lookup_insert_eq. split; [done|]. simpl.
  by rewrite !lookup_insert_eq.
Qed.

Lemma history_inv contract w0 filename fd_choice ops h w live :
  history contract w0 filename fd_choice ops = Some (h, w, live) →
  ∃ w1, consistent h w1 ∅ ∧ well_bucketed h w1 ∅ ∧ page_sized h w1 ∧
        run h contract ops (w1, ∅) = Some (w, live).
Proof.
  unfold history. intros H.
  destruct (New filename fd_choice w0) as [[[l|] w1]|] eqn:HN;
    simpl in H; [|done..].
  destruct (New_inv _ _ _ _ _ HN) as (h' & Hh & Hs & Hf).
  rewrite Hh in H. simpl in H.
  destruct (run h' contract ops (w1, ∅)) as [[w2 live2]|] eqn:Hr;
    simpl in H; [|done].
  simplify_eq. exists w1.
  assert (Hreg : registry w1 h = ∅) by (unfold registry; by rewrite Hs).
  assert (Hfl : free_list w1 h = ∅) by (unfold free_list; by rewrite Hf).
  split_and!; [split|split| |done]; unfold page_sized; rewrite ?Hreg, ?Hfl.
  - split; eauto.
  - intros a [s Hl]. by rewrite lookup_empty in Hl.
  - intros size v a Hl. by rewrite lookup_empty in Hl.
  - intros a size Hl. by rewrite lookup_empty in Hl.
  - intros size v a Hl. by rewrite lookup_empty in Hl.
  - intros a [s Hl]. by rewrite lookup_empty in Hl.
  - intros a size Hl. by rewrite lookup_empty in Hl.
  - intros a size Hl. by rewrite lookup_empty in Hl.
Qed.

Lemma history_consistent contract w0 filename fd_choice ops h w live :
  history contract w0 filename fd_choice ops = Some (h, w, live) →
  consistent h w live.
Proof.
  intros (w1 & Hc & _ & _ & Hr)%history_inv. eauto using run_consistent.
Qed.

Lemma history_well_bucketed w0 filename fd_choice ops h w live :
  history true w0 filename fd_choice ops = Some (h, w, live) →
  well_bucketed h w live.
Proof.
  intros (w1 & Hc & Hb & _ & Hr)%history_inv. eauto using run_well_bucketed.
Qed.

Lemma history_page_sized contract w0 filename fd_choice ops h w live :
  history contract w0 filename fd_choice ops = Some (h, w, live) →
  page_sized h w.
Proof.
  intros (w1 & Hc & _ & Hp & Hr)%history_inv. eauto using run_page_sized.
Qed.

Lemma history_app contract w0 filename fd_choice ops1 ops2 h w live s :
  history contract w0 filename fd_choice ops1 = Some (h, w, live) →
  run h contract ops2 (w, live) = Some s →
  history contract w0 filename fd_choice (ops1 ++ ops2) = Some (h, s.1, s.2).
Proof.
  unfold history. intros H Hr.
  destruct (New filename fd_choice w0) as [[[l|] w1]|]; simpl in *; [|done..].
  destruct (allocators w1 !! l) as [h'|]; simpl in *; [|done].
  destruct (run h' contract ops1 (w1, ∅)) as [[w2 live2]|] eqn:Hr1;
    simpl in H; [|done].
  simplify_eq. rewrite run_app, Hr1. simpl. rewrite Hr. by destruct s.
Qed.

(** ** Page rounding *)

(** C1 (as amended): when the byte count [n * sizeof(T)] is at most the
    largest multiple of the page size that [size_t] holds, the block size
    [allocate] uses is the smallest multiple of the page size that is at
    least the byte count.  A byte count that is a multiple already is left
    as it is. *)
Theorem page_rounding_in_range T n :
  0 ≤ n * sizeof T ≤ max_block →
  smallest_multiple_ge kPageSize (n * sizeof T) (block_size T n) ∧
  ((n * sizeof T) mod kPageSize = 0 → block_size T n = n * sizeof T).
Proof.
  intros Hb. split; [by apply block_size_exact|].
  intros H0. unfold block_size.
  assert (SIZE_MAX / kPageSize * kPageSize ≤ SIZE_MAX).
  { pose proof (Z.mul_div_le SIZE_MAX kPageSize). lia. }
  unfold max_block in Hb. rewrite size_t_small by lia.
  by rewrite H0.
Qed.

(** ** Deallocation *)

(** C10: the element count passed to [deallocate] is ignored: the outcome
    and the next state depend on the handle, the address and the state
    before only. *)
Theorem deallocate_ignores_count {T} (a : Allocator T) p n1 n2 w :
  deallocate a p n1 w = deallocate a p n2 w.
Proof. by rewrite !deallocate_unfold. Qed.

(** C4: deallocating an address the Size Registry has never recorded does
    not fail.  The lookup yields the default size zero (and leaves that
    entry behind in the registry); the address is pushed onto the Free List
    bucket of size zero. *)
Theorem deallocate_unrecorded {T} (a : Allocator T) p n w :
  valid w a →
  registry w a !! p = None →
  ∃ w', deallocate a p n w = Some (tt, w') ∧
        valid w' a ∧
        bucket w' a 0 = bucket w a 0 ++ [p] ∧
        free_list w' a = <[0 := bucket w a 0 ++ [p]]> (free_list w a) ∧
        registry w' a = <[p := 0]> (registry w a) ∧
        kernel w' = kernel w.
Proof.
  intros Hv Hp.
  destruct (deallocate_obs a p n w Hv) as (w' & Hd & Hv' & Hk & Hr & Hf).
  rewrite Hp in Hr, Hf. simpl in Hr, Hf.
  exists w'. split_and!; try done.
  unfold bucket at 1. rewrite Hf. by rewrite lookup_insert_eq.
Qed.

(** ** Handles on one arena *)

Lemma acquire_lookup {A} l (h : gmap loc (Shared A)) s :
  h !! l = Some s →
  acquire l h = Some (<[l := mkShared (S (use_count s)) (target s)]> h).
Proof. unfold acquire. by intros ->. Qed.

Lemma copy_members {T U} (a : Allocator U) w :
  valid w a →
  ∃ w', (acquire_sizes (sizes_ a);; acquire_free (free_blocks_ a);;
         mret (mkAllocator T (fd_ a) (sizes_ a) (free_blocks_ a))) w
        = Some (mkAllocator T (fd_ a) (sizes_ a) (free_blocks_ a), w') ∧
    kernel w' = kernel w ∧
    dom (size_maps w') = dom (size_maps w) ∧
    dom (free_maps w') = dom (free_maps w) ∧
    allocators w' = allocators w ∧
    default_allocator w' = default_allocator w ∧
    valid w' a ∧ registry w' a = registry w a ∧
    free_list w' a = free_list w a.
Proof.
  intros Hv. destruct (valid_lookup a w Hv) as (s & f & Hs & Hf & Hr & Hl).
  unfold mbind, M_bind, acquire_sizes, acquire_free, mret, M_ret.
  rewrite (acquire_lookup _ _ _ Hs). simpl.
  rewrite (acquire_lookup _ _ _ Hf). simpl.
  eexists. split; [done|].
  unfold valid, registry, free_list. simpl.
  rewrite !lookup_insert_eq, Hs, Hf. simpl.
  split_and!; eauto; apply dom_insert_lookup_L; eauto.
Qed.

(** C6: a handle made by the copy constructor (from a handle of the same
    element type or, rebinding, of another one) or by the default
    constructor while [default_allocator] points to a handle holds the same
    descriptor and the same two shared objects as its origin: no registry
    and no free list is created, and their contents are the origin's.  What
    one handle of an arena changes, every other one sees: an address
    deallocated through one is what an [allocate] of the size class it was
    filed under returns through the other. *)
Theorem handles_share_arena :
  (∀ (U T : ctype) (src : Allocator U) w,
     valid w src →
     ∃ h w', Allocator_copy T src w = Some (h, w') ∧
       same_arena src h ∧ valid w' h ∧
       dom (size_maps w') = dom (size_maps w) ∧
       dom (free_maps w') = dom (free_maps w) ∧
       registry w' h = registry w src ∧ free_list w' h = free_list w src) ∧
  (∀ (T : ctype) w p d,
     default_allocator w = Some p → allocators w !! p = Some d →
     valid w d →
     ∃ h w', Allocator_default T w = Some (h, w') ∧
       same_arena d h ∧ valid w' h ∧
       dom (size_maps w') = dom (size_maps w) ∧
       dom (free_maps w') = dom (free_maps w) ∧
       registry w' h = registry w d ∧ free_list w' h = free_list w d) ∧
  (∀ (T U : ctype) (a : Allocator T) (b : Allocator U) w x n m os,
     same_arena a b → valid w a →
     block_size U m = default 0 (registry w a !! x) →
     ∃ w1 w2, deallocate a x n w = Some (tt, w1) ∧
       registry w1 b = registry w1 a ∧ free_list w1 b = free_list w1 a ∧
       allocate b m os w1 = Some (x, w2)).
Proof.
  split_and!.
  - intros U T src w Hv.
    destruct (copy_members (T:=T) src w Hv)
      as (w' & Hc & _ & Hds & Hdf & _ & _ & Hv' & Hr & Hl).
    exists (mkAllocator T (fd_ src) (sizes_ src) (free_blocks_ src)), w'.
    unfold Allocator_copy. by rewrite Hc.
  - intros T w p d Hp Hd Hv.
    destruct (copy_members (T:=T) d w Hv)
      as (w' & Hc & _ & Hds & Hdf & _ & _ & Hv' & Hr & Hl).
    exists (mkAllocator T (fd_ d) (sizes_ d) (free_blocks_ d)), w'.
    split; [|done].
    unfold Allocator_default, get_default, load_allocator.
    unfold mbind at 1, M_bind at 1. rewrite Hp.
    unfold mbind at 1, M_bind at 1. rewrite Hd. simpl. exact Hc.
  - intros T U a b w x n m os Hab Hv Hm.
    destruct (deallocate_obs a x n w Hv) as (w1 & Hd & Hv1 & _ & Hr & Hf).
    destruct (same_arena_obs a b w1 Hab) as (Hrb & Hfb & Hvb).
    destruct (valid_lookup b w1 (proj1 Hvb Hv1)) as (s & f & _ & Hlf & _ & Ht).
    rewrite <- Hfb, Hf in Ht.
    eexists w1, _. split_and!; [done..|].
    eapply allocate_hit; [done|].
    by rewrite Hm, <- Ht, lookup_insert_eq.
Qed.

(** ** The default handle *)

Lemma release_lookup {A} l (h : gmap loc (Shared A)) s :
  h !! l = Some s → is_Some (release l h).
Proof. unfold release. intros ->. simpl. eauto. Qed.

(** C7 (as amended): when [default_allocator] points to a handle,
    [FreeDefault] destroys and frees that handle object: each of its two
    shared pointers gives up its share of the Size Registry and of the Free
    List (the last owner deletes them).  The system is left as it is: the
    descriptor stays open and the backing file stays in place.  The global
    pointer keeps its value. *)
Theorem free_default_releases_handle w p d :
  default_allocator w = Some p →
  allocators w !! p = Some d →
  valid w d →
  ∃ w', FreeDefault w = Some (tt, w') ∧
    allocators w' = delete p (allocators w) ∧
    release (sizes_ d) (size_maps w) = Some (size_maps w') ∧
    release (free_blocks_ d) (free_maps w) = Some (free_maps w') ∧
    default_allocator w' = Some p ∧
    kernel w' = kernel w ∧
    Posix.is_open (kernel w') (fd_ d) = Posix.is_open (kernel w) (fd_ d) ∧
    Posix.files (kernel w') = Posix.files (kernel w).
Proof.
  intros Hp Hd [[s Hs] [f Hf]].
  destruct (release_lookup _ _ _ Hs) as [sm' Hrs].
  destruct (release_lookup _ _ _ Hf) as [fm' Hrf].
  unfold FreeDefault, get_default, load_allocator, Allocator_destroy,
    release_free, release_sizes, free_allocator.
  unfold mbind at 1, M_bind at 1. rewrite Hp.
  unfold mbind at 1, M_bind at 1. rewrite Hd. simpl.
  unfold mbind at 1, M_bind at 1. unfold mbind at 1, M_bind at 1.
  rewrite Hrf. simpl. rewrite Hrs. simpl.
  eexists. split; [done|]. simpl. by split_and!.
Qed.


(** ** Failure of the system calls *)

(** A failing [write] (and with it a failing [lseek] before it) is
    reported: the call returns the null pointer and records nothing. *)
Lemma allocate_write_failure {T} (a : Allocator T) n os w :
  valid w a →
  bucket w a (block_size T n) = [] →
  write_ok os = false →
  ∃ w', allocate a n os w = Some (NULL, w') ∧ registry w' a = registry w a.
Proof.
  intros Hv Hnil Hw.
  destruct (valid_lookup a w Hv) as (s & f & Hs & Hf & Hr & Hl).
  unfold bucket in Hnil. rewrite Hl in Hnil.
  unfold allocate, mbind, M_bind, get_free, put_free, get_sizes, put_sizes,
    sys, mret, M_ret.
  rewrite Hf. simpl. rewrite (subscript_nil _ _ Hnil). simpl.
  rewrite Hf. simpl.
  destruct (Posix.lseek_end (fd_ a) 0 (kernel w)) as [prev k1]. simpl.
  destruct (Posix.lseek_end (fd_ a) _ k1) as [r k2]. simpl.
  destruct (r =? -1); simpl.
  { eexists. split; [done|]. unfold registry. simpl. by rewrite Hs. }
  rewrite Hw. unfold Posix.write1.
  destruct (Posix.fdtable k2 !! fd_ a); simpl;
    (eexists; split; [done|]; unfold registry; simpl; by rewrite Hs).
Qed.


(** ** Invariants of the histories *)

(** C8: after every history, whoever the client, an address that a call of
    [allocate] returned and that has not been deallocated since has an
    entry in the Size Registry; [deallocate] of it, through a handle of any
    element type and with any count, returns, finds that size, leaves the
    registry as it is and pushes the address onto the bucket of that size.
    For a client that keeps the contract the size found is, apart from
    [MAP_FAILED], the rounded size the address was allocated with. *)
Theorem registry_complete
    contract w0 filename fd_choice ops h w live a rounded :
  history contract w0 filename fd_choice ops = Some (h, w, live) →
  live !! a = Some rounded →
  ∃ size, registry w h !! a = Some size ∧
    (contract = true → a ≠ MAP_FAILED → size = rounded) ∧
    ∀ T n, ∃ w', deallocate (at_type T h) a n w = Some (tt, w') ∧
      registry w' h = registry w h ∧
      bucket w' h size = bucket w h size ++ [a].
Proof.
  intros Hh Ha.
  pose proof (history_consistent _ _ _ _ _ _ _ _ Hh) as [Hv Hlive _].
  destruct (Hlive a) as [size Hs]; [eauto|]. exists size.
  split; [done|]. split.
  { intros -> Hne.
    pose proof (history_well_bucketed _ _ _ _ _ _ _ Hh) as [Hlv _ _ _].
    specialize (Hlv _ _ Ha Hne). congruence. }
  intros T n.
  destruct (deallocate_obs (at_type T h) a n w Hv)
    as (w' & Hd & _ & _ & Hr & Hf).
  change (registry w' (at_type T h)) with (registry w' h) in Hr.
  change (registry w (at_type T h)) with (registry w h) in Hr, Hf.
  change (free_list w' (at_type T h)) with (free_list w' h) in Hf.
  change (free_list w (at_type T h)) with (free_list w h) in Hf.
  change (bucket w (at_type T h)) with (bucket w h) in Hf.
  rewrite Hs in Hr, Hf. simpl in Hr, Hf.
  exists w'. split_and!; [done|by rewrite Hr, insert_id|].
  unfold bucket at 1. by rewrite Hf, lookup_insert_eq.
Qed.

(** C9 (as amended): after every history, every size in the Size Registry
    is a multiple of the page size, zero or more.  For a client that keeps
    the contract, every size registered for an address other than
    [MAP_FAILED], that is for every block that was mapped, is a positive
    multiple of the page size.  A call of [allocate] that maps a new block
    records the rounded byte count for it, a positive multiple of the page
    size.  The rounded byte count is positive exactly when the byte count,
    as a [size_t], is not zero and at most [2^64] less the page size: for a
    count of zero it is zero. *)
Theorem registered_sizes_page_multiples
    contract w0 filename fd_choice ops h w live :
  history contract w0 filename fd_choice ops = Some (h, w, live) →
  (∀ a size, registry w h !! a = Some size →
     ∃ c, 0 ≤ c ∧ size = c * kPageSize) ∧
  (contract = true →
   ∀ a size, registry w h !! a = Some size → a ≠ MAP_FAILED →
     positive_multiple kPageSize size) ∧
  (∀ T n os p w',
     allocate (at_type T h) n os w = Some (p, w') →
     bucket w h (block_size T n) = [] → p ≠ NULL → p ≠ MAP_FAILED →
     registry w' h !! p = Some (block_size T n) ∧
     positive_multiple kPageSize (block_size T n)) ∧
  (∀ T n, 0 < block_size T n
          ↔ 0 < size_t (n * sizeof T) ≤ 2 ^ 64 - kPageSize) ∧
  (∀ T, block_size T 0 = 0).
Proof.
  intros Hh. pose proof (history_consistent _ _ _ _ _ _ _ _ Hh) as [Hv _ _].
  pose proof (history_page_sized _ _ _ _ _ _ _ _ Hh) as Hsz.
  split_and!.
  - done.
  - intros -> a size Hl Hne.
    pose proof (history_well_bucketed _ _ _ _ _ _ _ Hh) as [_ _ _ Hpos].
    destruct (Hsz a size Hl) as (c & Hc & ->).
    specialize (Hpos _ _ Hl Hne). exists c. split; [nia|done].
  - intros T n os p w' Ha Hb Hp Hf.
    apply allocate_obs in Ha as [_ Ha]; [|done].
    change (registry w' (at_type T h)) with (registry w' h) in Ha.
    change (free_list w (at_type T h)) with (free_list w h) in Ha.
    destruct Ha as [(vec & Hl & _)|(_ & _ & [(-> & _)|(Hr & Hm)])].
    + unfold bucket in Hb. rewrite Hl in Hb. by destruct vec.
    + done.
    + split; [by rewrite Hr, lookup_insert_eq|].
      destruct Hm as [[-> _]|(_ & _ & m & _ & _ & Hml & Hlen)]; [done|].
      destruct (block_size_multiple T n) as (c & Hc & Hbs).
      exists c. split; [nia|done].
  - apply block_size_positive.
  - intros T. unfold block_size. rewrite Z.mul_0_l.
    unfold size_t. by rewrite Z.mod_0_l, Z.mod_0_l by lia.
Qed.

(** ** Reuse of freed blocks *)

Lemma others_only_cons {U} (h : Allocator U) contract size op ops s :
  others_only h contract size (op :: ops) s
  = (other_class h size s.1 op ∧
     match step h contract op s with
     | Some s' => others_only h contract size ops s'
     | None => True
     end).
Proof. reflexivity. Qed.

(** Calls that stay away from a size class leave its bucket as it is. *)
Lemma run_others {U} (h : Allocator U) contract size others w live w' live' :
  others_only h contract size others (w, live) →
  valid w h →
  run h contract others (w, live) = Some (w', live') →
  valid w' h ∧ free_list w' h !! size = free_list w h !! size.
Proof.
  revert w live.
  induction others as [|op others IH]; intros w live Ho Hv Hrun.
  - by simplify_eq/=.
  - rewrite run_cons in Hrun. rewrite others_only_cons in Ho.
    destruct Ho as [Hop Ho].
    destruct (step h contract op (w, live)) as [[w1 live1]|] eqn:Hs;
      [|done].
    simpl in Hrun. destruct op as [T n os|T p n]; simpl in Hop.
    + apply step_allocate in Hs as (p & w2 & Ha & [= -> ->]).
      apply allocate_obs in Ha as [Hv' Ha]; [|done].
      change (free_list w2 (at_type T h)) with (free_list w2 h) in Ha.
      change (free_list w (at_type T h)) with (free_list w h) in Ha.
      destruct (IH _ _ Ho Hv' Hrun) as [Hv'' ->]. split; [done|].
      destruct Ha as [(vec & _ & _ & _ & ->)|(_ & -> & _)];
        by rewrite lookup_insert_ne.
    + apply step_deallocate in Hs as (_ & w2 & Hd & [= -> ->]).
      destruct (deallocate_obs (at_type T h) p n w Hv)
        as (w2' & Hd' & Hv' & _ & _ & Hf).
      rewrite Hd in Hd'. injection Hd' as <-.
      change (valid w2 h) in Hv'.
      change (registry w (at_type T h)) with (registry w h) in Hf.
      change (free_list w2 (at_type T h)) with (free_list w2 h) in Hf.
      change (free_list w (at_type T h)) with (free_list w h) in Hf.
      destruct (IH _ _ Ho Hv' Hrun) as [Hv'' ->]. split; [done|].
      rewrite Hf. by rewrite lookup_insert_ne.
Qed.

(** C2 (as amended): in every state a client that keeps the contract can
    reach, let [allocate] return a block [a] of rounded size [S], and let
    [a] be deallocated.  Then, whatever calls come in between that stay
    away from the size class [S] (allocations of other rounded sizes and
    deallocations of addresses registered with other sizes, but neither an
    allocation of rounded size [S] nor a deallocation of another block of
    size [S]), the next [allocate] of rounded size [S] returns [a] again
    and leaves the system, and so the length of the backing file, as it
    was.  The state after it is again such a state, with [a] just
    allocated: the same holds for every further round. *)
Theorem lifo_reuse w0 filename fd_choice ops h w live
    T1 n1 os1 a w1 T2 n2 others T3 n3 os3 :
  history true w0 filename fd_choice ops = Some (h, w, live) →
  allocate (at_type T1 h) n1 os1 w = Some (a, w1) →
  a ≠ NULL → a ≠ MAP_FAILED →
  block_size T3 n3 = block_size T1 n1 →
  ∃ w2, deallocate (at_type T2 h) a n2 w1 = Some (tt, w2) ∧
    ∀ w3 live3,
      others_only h true (block_size T1 n1) others
        (w2, delete a (<[a := block_size T1 n1]> live)) →
      run h true others (w2, delete a (<[a := block_size T1 n1]> live))
      = Some (w3, live3) →
      ∃ w4, allocate (at_type T3 h) n3 os3 w3 = Some (a, w4) ∧
        kernel w4 = kernel w3 ∧
        backing_length w4 h = backing_length w3 h ∧
        history true w0 filename fd_choice
          (ops ++ [OAllocate T1 n1 os1; ODeallocate T2 a n2] ++ others
               ++ [OAllocate T3 n3 os3])
        = Some (h, w4, <[a := block_size T3 n3]> live3).
Proof.
  intros Hh Ha Hnull Hfail Hsize.
  pose proof (history_consistent _ _ _ _ _ _ _ _ Hh) as [Hv _ _].
  pose proof (history_well_bucketed _ _ _ _ _ _ _ Hh) as [_ Hb _ _].
  pose proof Ha as Ha'.
  apply allocate_obs in Ha' as [Hv1 Ha']; [|done].
  change (valid w1 h) in Hv1.
  change (registry w1 (at_type T1 h)) with (registry w1 h) in Ha'.
  change (registry w (at_type T1 h)) with (registry w h) in Ha'.
  change (free_list w (at_type T1 h)) with (free_list w h) in Ha'.
  assert (Hreg : registry w1 h !! a = Some (block_size T1 n1)).
  { destruct Ha' as [(vec & Hl & _ & -> & _)|(_ & _ & [(-> & _)|(-> & _)])].
    - eapply Hb; [done| |done]. apply elem_of_app. right.
      apply list_elem_of_here.
    - done.
    - apply lookup_insert_eq. }
  destruct (deallocate_obs (at_type T2 h) a n2 w1 Hv1)
    as (w2 & Hd & Hv2 & Hk2 & _ & Hf2).
  change (valid w2 h) in Hv2.
  change (registry w1 (at_type T2 h)) with (registry w1 h) in Hf2.
  change (free_list w2 (at_type T2 h)) with (free_list w2 h) in Hf2.
  change (free_list w1 (at_type T2 h)) with (free_list w1 h) in Hf2.
  change (bucket w1 (at_type T2 h)) with (bucket w1 h) in Hf2.
  rewrite Hreg in Hf2. simpl in Hf2.
  exists w2. split; [done|]. intros w3 live3 Ho Hrun.
  destruct (run_others _ _ _ _ _ _ _ _ Ho Hv2 Hrun) as [Hv3 Hl3].
  rewrite Hf2, lookup_insert_eq in Hl3.
  destruct (valid_lookup h w3 Hv3) as (s & f & _ & Hlf & _ & Ht).
  rewrite Ht in Hl3.
  pose (w4 := mkWorld (kernel w3) (size_maps w3)
                (<[free_blocks_ h :=
                     mkShared (use_count f)
                       (<[block_size T3 n3 := bucket w1 h (block_size T1 n1)]>
                          (target f))]> (free_maps w3))
                (allocators w3) (default_allocator w3)).
  assert (Ha3 : allocate (at_type T3 h) n3 os3 w3 = Some (a, w4)).
  { apply (allocate_hit (at_type T3 h)); [done|]. by rewrite Hsize. }
  exists w4. split; [exact Ha3|]. split; [done|]. split; [done|].
  rewrite (history_app true w0 filename fd_choice ops _ h w live
             (w4, <[a := block_size T3 n3]> live3) Hh); [done|].
  cbn [app]. rewrite run_cons. simpl step. rewrite Ha. simpl.
  replace (a =? NULL) with false by (symmetry; by apply Z.eqb_neq).
  rewrite bool_decide_eq_true_2 by (rewrite lookup_insert_eq; eauto). simpl. rewrite Hd. simpl.
  rewrite run_app, Hrun. simpl. rewrite Ha3. simpl.
  by replace (a =? NULL) with false by (symmetry; by apply Z.eqb_neq).
Qed.

(** * Further properties *)

(** ** Creation of an arena *)

Lemma fresh_lookup {A} (m : gmap loc A) : m !! fresh (dom m) = None.
Proof. apply not_elem_of_dom, is_fresh. Qed.

Lemma New_run filename fd_choice w0 :
  ∃ r w, New filename fd_choice w0 = Some (r, w) ∧
    match r with
    | None => w = w0
    | Some l =>
        ∃ h, allocators w !! l = Some h ∧ allocators w0 !! l = None ∧
          fd_ h = fd_choice ∧
          Posix.is_open (kernel w0) fd_choice = false ∧
          Posix.fdtable (kernel w)
            = <[fd_choice := Posix.mkOpenFile filename 0]>
                (Posix.fdtable (kernel w0)) ∧
          Posix.files (kernel w) = <[filename := 0]> (Posix.files (kernel w0)) ∧
          backing_length w h = 0 ∧
          size_maps w0 !! sizes_ h = None ∧
          free_maps w0 !! free_blocks_ h = None ∧
          owners w h = Some (1%nat, 1%nat) ∧
          registry w h = ∅ ∧ free_list w h = ∅ ∧
          size_maps w = <[sizes_ h := mkShared 1 ∅]> (size_maps w0) ∧
          free_maps w = <[free_blocks_ h := mkShared 1 ∅]> (free_maps w0) ∧
          allocators w = <[l := h]> (allocators w0) ∧
          default_allocator w = default_allocator w0 ∧
          Posix.mappings (kernel w) = Posix.mappings (kernel w0)
    end.
Proof.
  unfold New, mbind, M_bind, sys, new_sizes, new_free, new_allocator, mret,
    M_ret, Posix.open.
  case_bool_decide as Hc; simpl.
  - destruct Hc as [Hr Hfd].
    replace (fd_choice =? -1) with false by (symmetry; apply Z.eqb_neq; lia).
    simpl. eexists _, _. split; [done|].
    eexists. simpl. rewrite lookup_insert_eq. split; [done|].
    unfold backing_length, owners, registry, free_list, Posix.is_open,
      Posix.file_length. simpl.
    rewrite !lookup_insert_eq, !fresh_lookup, Hfd. simpl.
    rewrite ?lookup_insert_eq. split_and!; try done.
  - eexists _, _. split; [done|]. by destruct w0.
Qed.

(** X1: [New] never runs into undefined behaviour.  When [open] fails it
    returns the null pointer and leaves the process as it is.  When it
    succeeds the new handle holds the descriptor [open] returned, its Size
    Registry and Free List are new and empty, the backing file is
    truncated to length zero, and nothing that was there before is
    touched. *)
Theorem New_creates_empty_arena filename fd_choice w0 :
  ∃ r w, New filename fd_choice w0 = Some (r, w) ∧
    match r with
    | None => w = w0
    | Some l =>
        ∃ h, allocators w !! l = Some h ∧ allocators w0 !! l = None ∧
          fd_ h = fd_choice ∧
          Posix.is_open (kernel w0) fd_choice = false ∧
          Posix.fdtable (kernel w)
            = <[fd_choice := Posix.mkOpenFile filename 0]>
                (Posix.fdtable (kernel w0)) ∧
          Posix.files (kernel w) = <[filename := 0]> (Posix.files (kernel w0)) ∧
          backing_length w h = 0 ∧
          size_maps w0 !! sizes_ h = None ∧
          free_maps w0 !! free_blocks_ h = None ∧
          owners w h = Some (1%nat, 1%nat) ∧
          registry w h = ∅ ∧ free_list w h = ∅ ∧
          size_maps w = <[sizes_ h := mkShared 1 ∅]> (size_maps w0) ∧
          free_maps w = <[free_blocks_ h := mkShared 1 ∅]> (free_maps w0) ∧
          allocators w = <[l := h]> (allocators w0) ∧
          default_allocator w = default_allocator w0 ∧
          Posix.mappings (kernel w) = Posix.mappings (kernel w0)
    end.
Proof. apply New_run. Qed.


(** ** The default handle, continued *)

(** X3: when [open] fails, [SetDefault] stores the null pointer and touches
    nothing else.  Default construction of a handle is then undefined;
    [FreeDefault] does nothing. *)
Theorem SetDefault_failure filename fd_choice w :
  ¬ (0 ≤ fd_choice ≤ INT_MAX ∧ Posix.is_open (kernel w) fd_choice = false) →
  ∃ w', SetDefault filename fd_choice w = Some (tt, w') ∧
    default_allocator w' = None ∧
    kernel w' = kernel w ∧ size_maps w' = size_maps w ∧
    free_maps w' = free_maps w ∧ allocators w' = allocators w ∧
    (∀ T, Allocator_default T w' = None) ∧
    FreeDefault w' = Some (tt, w').
Proof.
  intros Hbad.
  unfold SetDefault, New, mbind, M_bind, sys, set_default, Posix.open.
  rewrite bool_decide_eq_false_2; cycle 1.
  { intros [Hr Hn]. apply Hbad. split; [done|].
    unfold Posix.is_open. apply bool_decide_eq_false. rewrite Hn.
    by intros [? ?]. }
  simpl. eexists. split; [done|]. simpl. split_and!; try done.
Qed.

Lemma FreeDefault_run w p d :
  default_allocator w = Some p →
  allocators w !! p = Some d →
  valid w d →
  ∃ w', FreeDefault w = Some (tt, w') ∧
    allocators w' = delete p (allocators w) ∧
    release (sizes_ d) (size_maps w) = Some (size_maps w') ∧
    release (free_blocks_ d) (free_maps w) = Some (free_maps w') ∧
    default_allocator w' = Some p ∧
    kernel w' = kernel w.
Proof.
  intros Hp Hd [[s Hs] [f Hf]].
  destruct (release_lookup _ _ _ Hs) as [sm' Hrs].
  destruct (release_lookup _ _ _ Hf) as [fm' Hrf].
  unfold FreeDefault, get_default, load_allocator, Allocator_destroy,
    release_free, release_sizes, free_allocator.
  unfold mbind at 1, M_bind at 1. rewrite Hp.
  unfold mbind at 1, M_bind at 1. rewrite Hd. simpl.
  unfold mbind at 1, M_bind at 1. unfold mbind at 1, M_bind at 1.
  rewrite Hrf. simpl. rewrite Hrs. simpl.
  eexists. split; [done|]. simpl. by split_and!.
Qed.

(** X4: [FreeDefault] leaves [default_allocator] pointing to the freed
    object.  A second [FreeDefault], and default construction of a handle,
    are undefined after it. *)
Theorem FreeDefault_leaves_dangling_pointer w p d :
  default_allocator w = Some p →
  allocators w !! p = Some d →
  valid w d →
  ∃ w', FreeDefault w = Some (tt, w') ∧
    default_allocator w' = Some p ∧ allocators w' !! p = None ∧
    FreeDefault w' = None ∧
    ∀ T, Allocator_default T w' = None.
Proof.
  intros Hp Hd Hv.
  destruct (FreeDefault_run w p d Hp Hd Hv)
    as (w' & Hf & Ha & _ & _ & Hp' & _).
  exists w'. split; [done|]. split; [done|].
  assert (Hgone : allocators w' !! p = None)
    by (rewrite Ha; apply lookup_delete_eq).
  split; [done|].
  unfold FreeDefault, Allocator_default, get_default, load_allocator.
  unfold mbind at 1, M_bind at 1. rewrite Hp'.
  unfold mbind at 1, M_bind at 1. rewrite Hgone. simpl.
  split; [done|]. intros T.
  unfold mbind at 1, M_bind at 1. rewrite Hp'.
  unfold mbind at 1, M_bind at 1. by rewrite Hgone.
Qed.

(** ** Shared ownership *)

Lemma copy_members_exact {T U} (a : Allocator U) w s f :
  size_maps w !! sizes_ a = Some s →
  free_maps w !! free_blocks_ a = Some f →
  (acquire_sizes (sizes_ a);; acquire_free (free_blocks_ a);;
   mret (mkAllocator T (fd_ a) (sizes_ a) (free_blocks_ a))) w
  = Some (mkAllocator T (fd_ a) (sizes_ a) (free_blocks_ a),
          mkWorld (kernel w)
            (<[sizes_ a := mkShared (S (use_count s)) (target s)]>
               (size_maps w))
            (<[free_blocks_ a := mkShared (S (use_count f)) (target f)]>
               (free_maps w))
            (allocators w) (default_allocator w)).
Proof.
  intros Hs Hf.
  unfold mbind, M_bind, acquire_sizes, acquire_free, mret, M_ret.
  rewrite (acquire_lookup _ _ _ Hs). simpl.
  by rewrite (acquire_lookup _ _ _ Hf).
Qed.

Lemma Allocator_destroy_exact {T} (a : Allocator T) w s f :
  size_maps w !! sizes_ a = Some s →
  free_maps w !! free_blocks_ a = Some f →
  Allocator_destroy a w
  = Some (tt,
          mkWorld (kernel w)
            (match use_count s with
             | S (S c) => <[sizes_ a := mkShared (S c) (target s)]>
                            (size_maps w)
             | _ => delete (sizes_ a) (size_maps w)
             end)
            (match use_count f with
             | S (S c) => <[free_blocks_ a := mkShared (S c) (target f)]>
                            (free_maps w)
             | _ => delete (free_blocks_ a) (free_maps w)
             end)
            (allocators w) (default_allocator w)).
Proof.
  intros Hs Hf.
  unfold Allocator_destroy, mbind, M_bind, release_free, release_sizes,
    release.
  rewrite Hf. simpl. by rewrite Hs.
Qed.

Lemma owners_lookup {T} (a : Allocator T) w c1 c2 :
  owners w a = Some (c1, c2) →
  ∃ s f, size_maps w !! sizes_ a = Some s ∧
         free_maps w !! free_blocks_ a = Some f ∧
         use_count s = c1 ∧ use_count f = c2.
Proof.
  unfold owners. intros H.
  destruct (size_maps w !! sizes_ a) as [s|]; simpl in H; [|done].
  destruct (free_maps w !! free_blocks_ a) as [f|]; simpl in H; [|done].
  simplify_eq. by eexists _, _.
Qed.

(** X5: copying a handle (to the same or, rebinding, to another element
    type) raises the use counts of the Size Registry and of the Free List
    by one, and destroying the copy gives back exactly the world before the
    copy: nothing is cloned, nothing is lost. *)
Theorem copy_then_destroy {U} (T : ctype) (src : Allocator U) w c1 c2 :
  owners w src = Some (S c1, S c2) →
  ∃ h w1, Allocator_copy T src w = Some (h, w1) ∧
    same_arena src h ∧
    owners w1 h = Some (S (S c1), S (S c2)) ∧
    registry w1 h = registry w src ∧ free_list w1 h = free_list w src ∧
    Allocator_destroy h w1 = Some (tt, w).
Proof.
  intros (s & f & Hs & Hf & Hc1 & Hc2)%owners_lookup.
  eexists _, _. unfold Allocator_copy.
  split; [by apply copy_members_exact|].
  split; [done|].
  unfold owners, registry, free_list. simpl.
  rewrite !lookup_insert_eq, Hs, Hf, Hc1, Hc2. simpl.
  split_and!; try done.
  erewrite Allocator_destroy_exact; simpl; [|apply lookup_insert_eq..].
  simpl. rewrite !insert_insert_eq.
  destruct s as [cs ts], f as [cf tf]. simpl in *. subst.
  rewrite !insert_id by done. by destruct w.
Qed.

(** X6: a handle made by the default constructor outlives [FreeDefault]:
    after the default handle is freed, the handle is still alive and sees
    the Size Registry and the Free List unchanged. *)
Theorem handle_outlives_FreeDefault (T : ctype) w p d c1 c2 :
  default_allocator w = Some p →
  allocators w !! p = Some d →
  owners w d = Some (S c1, S c2) →
  ∃ h w1 w2, Allocator_default T w = Some (h, w1) ∧
    FreeDefault w1 = Some (tt, w2) ∧
    same_arena d h ∧ valid w2 h ∧
    owners w2 h = Some (S c1, S c2) ∧
    registry w2 h = registry w d ∧ free_list w2 h = free_list w d ∧
    kernel w2 = kernel w ∧
    allocators w2 !! p = None.
Proof.
  intros Hp Hd (s & f & Hs & Hf & Hc1 & Hc2)%owners_lookup.
  eexists _, _, _. split.
  { unfold Allocator_default, get_default, load_allocator.
    unfold mbind at 1, M_bind at 1. rewrite Hp.
    unfold mbind at 1, M_bind at 1. rewrite Hd. simpl.
    by apply copy_members_exact. }
  split.
  { unfold FreeDefault, get_default, load_allocator, free_allocator.
    unfold mbind at 1, M_bind at 1. simpl. rewrite Hp.
    unfold mbind at 1, M_bind at 1. simpl. rewrite Hd. simpl.
    unfold mbind at 1, M_bind at 1.
    erewrite Allocator_destroy_exact; simpl; [|apply lookup_insert_eq..].
    done. }
  unfold valid, owners, registry, free_list. simpl.
  rewrite Hc1, Hc2, !lookup_insert_eq, ?Hs, ?Hf. simpl.
  rewrite lookup_delete_eq. split_and!; eauto. by repeat split.
Qed.

(** X7: [SetDefault] followed at once by [FreeDefault] gives the heap back
    as it was: the handle object, the Size Registry and the Free List are
    deleted.  The descriptor stays open, the file stays, and
    [default_allocator] keeps pointing to the freed object. *)
Theorem SetDefault_then_FreeDefault filename fd_choice w :
  0 ≤ fd_choice ≤ INT_MAX →
  Posix.is_open (kernel w) fd_choice = false →
  ∃ w1 w2 p, SetDefault filename fd_choice w = Some (tt, w1) ∧
    default_allocator w1 = Some p ∧
    FreeDefault w1 = Some (tt, w2) ∧
    size_maps w2 = size_maps w ∧ free_maps w2 = free_maps w ∧
    allocators w2 = allocators w ∧
    default_allocator w2 = Some p ∧ allocators w2 !! p = None ∧
    Posix.is_open (kernel w2) fd_choice = true ∧
    Posix.file_exists (kernel w2) filename = true.
Proof.
  intros Hr Hclosed.
  destruct (New_run filename fd_choice w)
    as (r & w1 & HN & Hres).
  destruct r as [l|]; cycle 1.
  { subst w1. revert HN.
    unfold New, mbind, M_bind, sys, Posix.open.
    rewrite bool_decide_eq_true_2; cycle 1.
    { split; [done|]. unfold Posix.is_open in Hclosed.
      apply bool_decide_eq_false in Hclosed.
      destruct (Posix.fdtable (kernel w) !! fd_choice); [|done].
      exfalso. eauto. }
    simpl.
    replace (fd_choice =? -1) with false by (symmetry; apply Z.eqb_neq; lia).
    done. }
  destruct Hres as (h & Hh & Hl0 & Hfd & _ & Hft & Hfiles & _ & Hs0 & Hf0
                    & Ho & _ & _ & Hsm & Hfm & Hal & Hdef & _).
  apply owners_lookup in Ho as (s & f & Hs & Hf & Hc1 & Hc2).
  eexists _, _, l. split.
  { unfold SetDefault. unfold mbind, M_bind. rewrite HN. done. }
  simpl. split; [done|]. split.
  { unfold FreeDefault, get_default, load_allocator, free_allocator.
    unfold mbind at 1, M_bind at 1. simpl.
    unfold mbind at 1, M_bind at 1. simpl. rewrite Hh. simpl.
    unfold mbind at 1, M_bind at 1.
    erewrite Allocator_destroy_exact; simpl; [|done..]. done. }
  simpl. rewrite Hc1, Hc2, Hsm, Hfm, Hal.
  rewrite !delete_insert_id by done. rewrite Hl0.
  unfold Posix.is_open, Posix.file_exists. rewrite Hft, Hfiles.
  rewrite !lookup_insert_eq. split_and!; try done.
Qed.

(** ** Buckets and size classes *)

(** X8: [allocate] changes no bucket but the one of its rounded size, and
    no registry entry but that of the address it returns; [deallocate]
    changes no bucket but the one of the size it finds for the address, and
    no registry entry but that of the address.  Blocks are never split,
    merged or moved between size classes. *)
Theorem other_size_classes_untouched {T} (a : Allocator T) w :
  valid w a →
  (∀ n os p w', allocate a n os w = Some (p, w') →
     (∀ size, size ≠ block_size T n → bucket w' a size = bucket w a size) ∧
     (∀ x, x ≠ p → registry w' a !! x = registry w a !! x)) ∧
  (∀ p n w', deallocate a p n w = Some (tt, w') →
     (∀ size, size ≠ default 0 (registry w a !! p) →
        bucket w' a size = bucket w a size) ∧
     (∀ x, x ≠ p → registry w' a !! x = registry w a !! x)).
Proof.
  intros Hv. split.
  - intros n os p w' Ha. apply allocate_obs in Ha as [_ Ha]; [|done].
    unfold bucket.
    destruct Ha as [(vec & _ & _ & -> & ->)
                   |(_ & -> & [(_ & -> & _)|(-> & _)])];
      (split; [intros size Hne; by rewrite lookup_insert_ne|]);
      intros x Hx; by rewrite ?lookup_insert_ne.
  - intros p n w' Hd.
    destruct (deallocate_obs a p n w Hv) as (w2 & Hd' & _ & _ & Hr & Hf).
    rewrite Hd in Hd'. injection Hd' as <-. unfold bucket. rewrite Hr, Hf.
    split; [intros size Hne|intros x Hx]; by rewrite lookup_insert_ne.
Qed.

(** X9: [deallocate] does not notice that an address is free already.
    After an address registered with size [size] is deallocated twice, the
    next two calls of [allocate] with that rounded size both return it. *)
Theorem double_free_hands_out_twice {T} (a : Allocator T) w x size
    n1 n2 m1 m2 os1 os2 :
  valid w a →
  registry w a !! x = Some size →
  block_size T m1 = size → block_size T m2 = size →
  ∃ w1 w2 w3 w4,
    deallocate a x n1 w = Some (tt, w1) ∧
    deallocate a x n2 w1 = Some (tt, w2) ∧
    bucket w2 a size = bucket w a size ++ [x; x] ∧
    allocate a m1 os1 w2 = Some (x, w3) ∧
    allocate a m2 os2 w3 = Some (x, w4) ∧
    bucket w4 a size = bucket w a size ∧
    kernel w4 = kernel w.
Proof.
  intros Hv Hx Hm1 Hm2.
  destruct (deallocate_obs a x n1 w Hv) as (w1 & Hd1 & Hv1 & Hk1 & Hr1 & Hf1).
  rewrite Hx in Hr1, Hf1. simpl in Hr1, Hf1.
  rewrite insert_id in Hr1 by done.
  destruct (deallocate_obs a x n2 w1 Hv1)
    as (w2 & Hd2 & Hv2 & Hk2 & Hr2 & Hf2).
  rewrite Hr1, Hx in Hr2, Hf2. simpl in Hr2, Hf2.
  unfold bucket at 1 in Hf2. rewrite Hf1, lookup_insert_eq in Hf2.
  simpl in Hf2. rewrite insert_insert_eq, <- app_assoc in Hf2. simpl in Hf2.
  destruct (valid_lookup a w2 Hv2) as (s2 & f2 & _ & Hl2 & _ & Ht2).
  pose (w3 := mkWorld (kernel w2) (size_maps w2)
                (<[free_blocks_ a :=
                     mkShared (use_count f2)
                       (<[block_size T m1 := bucket w a size ++ [x]]>
                          (target f2))]> (free_maps w2))
                (allocators w2) (default_allocator w2)).
  assert (Ha3 : allocate a m1 os1 w2 = Some (x, w3)).
  { apply allocate_hit; [done|].
    rewrite Hm1, <- Ht2, Hf2, lookup_insert_eq.
    by rewrite (app_assoc _ [x] [x]). }
  assert (Hl3 : free_maps w3 !! free_blocks_ a
                = Some (mkShared (use_count f2)
                          (<[size := bucket w a size ++ [x]]> (target f2))))
    by (simpl; by rewrite lookup_insert_eq, Hm1).
  pose (w4 := mkWorld (kernel w3) (size_maps w3)
                (<[free_blocks_ a :=
                     mkShared (use_count f2)
                       (<[block_size T m2 := bucket w a size]>
                          (<[size := bucket w a size ++ [x]]> (target f2)))]>
                   (free_maps w3))
                (allocators w3) (default_allocator w3)).
  assert (Ha4 : allocate a m2 os2 w3 = Some (x, w4)).
  { eapply (allocate_hit a m2 os2 w3 _ _ x Hl3). simpl.
    by rewrite Hm2, lookup_insert_eq. }
  exists w1, w2, w3, w4. split_and!; try done.
  - unfold bucket at 1. by rewrite Hf2, lookup_insert_eq.
  - unfold bucket at 1, free_list. simpl. rewrite lookup_insert_eq. simpl.
    by rewrite Hm2, lookup_insert_eq.
  - simpl. by rewrite Hk2, Hk1.
Qed.

(** ** Rounding, continued *)

(** X10: rounding is idempotent: a request of [char]s for a rounded size
    gets that same size, so that the blocks of a size class serve requests
    of every element type.  While the byte count does not wrap, less than
    one page is added to it. *)
Theorem rounding_idempotent T n :
  block_size char (block_size T n) = block_size T n ∧
  (0 ≤ n * sizeof T ≤ max_block →
   n * sizeof T ≤ block_size T n < n * sizeof T + kPageSize).
Proof.
  split.
  - destruct (block_size_multiple T n) as (c & Hc & Hb).
    pose proof (block_size_range T n) as Hr.
    unfold block_size at 1. simpl sizeof. rewrite Z.mul_1_r.
    rewrite size_t_small by (unfold SIZE_MAX; lia).
    rewrite Hb at 1. rewrite Z_mod_mult. done.
  - intros Hb. destruct (block_size_exact T n Hb) as (Hd & Hle & Hmin).
    split; [done|].
    pose proof (Z.div_mod (n * sizeof T) kPageSize) as Hdm.
    pose proof (Z.mod_pos_bound (n * sizeof T) kPageSize kPageSize_pos).
    assert (Hq : 0 ≤ n * sizeof T / kPageSize) by (apply Z.div_pos; lia).
    destruct (decide ((n * sizeof T) mod kPageSize = 0)) as [H0|H0].
    + assert (block_size T n ≤ n * sizeof T); [|lia].
      apply Hmin; [|lia]. exists (n * sizeof T / kPageSize). lia.
    + assert (block_size T n ≤ (n * sizeof T / kPageSize + 1) * kPageSize).
      { apply Hmin; [by apply Z.divide_mul_r|nia]. }
      nia.
Qed.

(** ** What [allocate] asks of the system *)

Lemma off_t_cases x :
  0 ≤ x < 2 ^ 64 →
  (x = 0 ∧ off_t (size_t (x - 1)) = -1) ∨
  (0 < x ≤ 2 ^ 63 ∧ off_t (size_t (x - 1)) = x - 1) ∨
  (2 ^ 63 < x ∧ off_t (size_t (x - 1)) = x - 1 - 2 ^ 64).
Proof.
  intros Hx. unfold off_t, size_t.
  destruct (decide (x = 0)) as [->|Hne].
  - left. split; [done|]. reflexivity.
  - right. rewrite Z.mod_small by lia.
    destruct (Z.ltb_spec (x - 1) (2 ^ 63)); [left|right]; lia.
Qed.

Lemma lseek_end_closed fd off k :
  Posix.fdtable k !! fd = None → Posix.lseek_end fd off k = (-1, k).
Proof. unfold Posix.lseek_end. by intros ->. Qed.

Lemma lseek_end_open fd off k path pos :
  Posix.fdtable k !! fd = Some (Posix.mkOpenFile path pos) →
  Posix.lseek_end fd off k =
  if bool_decide (0 ≤ Posix.file_length k path + off ≤ OFF_MAX)
  then (Posix.file_length k path + off,
        Posix.mkKernel (Posix.files k)
          (<[fd := Posix.mkOpenFile path (Posix.file_length k path + off)]>
             (Posix.fdtable k))
          (Posix.mappings k))
  else (-1, k).
Proof. unfold Posix.lseek_end. by intros ->. Qed.

Lemma write1_open fd ok k path pos :
  Posix.fdtable k !! fd = Some (Posix.mkOpenFile path pos) →
  Posix.write1 fd ok k =
  if ok
  then (1, Posix.mkKernel
             (<[path := Z.max (Posix.file_length k path) (pos + 1)]>
                (Posix.files k))
             (<[fd := Posix.mkOpenFile path (pos + 1)]> (Posix.fdtable k))
             (Posix.mappings k))
  else (-1, k).
Proof. unfold Posix.write1. by intros ->. Qed.

Lemma mmap_open pagesize length fd offset choice k f :
  Posix.fdtable k !! fd = Some f →
  Posix.mmap pagesize length fd offset choice k =
  if bool_decide (0 < length ∧ 0 ≤ offset ∧ offset mod pagesize = 0)
     && bool_decide (0 < choice ∧ choice mod pagesize = 0
                     ∧ choice + length ≤ SIZE_MAX)
     && forallb (Posix.disjoint_from choice length) (Posix.mappings k)
  then (choice,
        Posix.mkKernel (Posix.files k) (Posix.fdtable k)
          (Posix.mkMapping choice length (Posix.of_path f) offset
             :: Posix.mappings k))
  else (MAP_FAILED, k).
Proof. unfold Posix.mmap. by intros ->. Qed.

Lemma allocate_system {T} (a : Allocator T) n os w p w' :
  allocate a n os w = Some (p, w') →
  (Posix.of_path <$> Posix.fdtable (kernel w') !! fd_ a)
  = (Posix.of_path <$> Posix.fdtable (kernel w) !! fd_ a) ∧
  ((Posix.mappings (kernel w') = Posix.mappings (kernel w) ∧
    (backing_length w' a = backing_length w a ∨
     (0 < block_size T n ≤ 2 ^ 63 ∧
      backing_length w' a = backing_length w a + block_size T n)))
   ∨ (p ≠ MAP_FAILED ∧ 0 < p ∧ 0 < block_size T n ∧
      ∃ f, Posix.fdtable (kernel w) !! fd_ a = Some f ∧
        Posix.mappings (kernel w')
        = Posix.mkMapping p (block_size T n) (Posix.of_path f)
            (backing_length w a) :: Posix.mappings (kernel w) ∧
        forallb (Posix.disjoint_from p (block_size T n))
          (Posix.mappings (kernel w)) = true ∧
        p mod kPageSize = 0 ∧
        0 ≤ backing_length w a ∧ backing_length w a mod kPageSize = 0 ∧
        (block_size T n ≤ 2 ^ 63 →
         backing_length w' a = backing_length w a + block_size T n) ∧
        (2 ^ 63 < block_size T n →
         backing_length w' a = backing_length w a))) ∧
  (bucket w a (block_size T n) = [] →
   (block_size T n = 0 ∧ backing_length w a ≤ 0) ∨
   write_ok os = false ∨ Posix.is_open (kernel w) (fd_ a) = false →
   p = NULL ∧ backing_length w' a = backing_length w a).
Proof.
  intros H.
  destruct (free_maps w !! free_blocks_ a) as [f|] eqn:Hf; cycle 1.
  { unfold allocate, mbind, M_bind, get_free in H. by rewrite Hf in H. }
  assert (Hbk : bucket w a (block_size T n)
                = default [] (target f !! block_size T n)).
  { unfold bucket, free_list. by rewrite Hf. }
  rewrite Hbk. clear Hbk.
  destruct (snoc_or_nil (default [] (target f !! block_size T n)))
    as [Hnil|(vec & x & Hv)]; cycle 1.
  { rewrite Hv.
    destruct (target f !! block_size T n) as [v|] eqn:Hb; simpl in Hv;
      [|by destruct vec].
    subst v. rewrite (allocate_hit a n os w f vec x Hf Hb) in H.
    simplify_eq. simpl. split; [done|]. split; [|by destruct vec].
    left. split; [done|]. by left. }
  unfold allocate, mbind, M_bind, get_free, put_free, get_sizes, put_sizes,
    sys, mret, M_ret in H.
  rewrite Hf in H. simpl in H. rewrite (subscript_nil _ _ Hnil) in H.
  simpl in H. rewrite Hf in H. simpl in H.
  pose proof (block_size_range T n) as Hrange.
  destruct (Posix.is_open (kernel w) (fd_ a)) eqn:Hopen; cycle 1.
  { unfold Posix.is_open in Hopen. apply bool_decide_eq_false in Hopen.
    assert (Hfd : Posix.fdtable (kernel w) !! fd_ a = None).
    { destruct (Posix.fdtable (kernel w) !! fd_ a); [|done].
      exfalso. eauto. }
    rewrite (lseek_end_closed _ _ _ Hfd) in H. simpl in H.
    rewrite (lseek_end_closed _ _ _ Hfd) in H. simpl in H.
    simplify_eq. unfold backing_length. simpl. split; [done|].
    split; [|done]. left. split; [done|]. by left. }
  unfold backing_length.
  destruct (Posix.fdtable (kernel w) !! fd_ a) as [[path pos]|] eqn:Hfd;
    cycle 1.
  { unfold Posix.is_open in Hopen. rewrite Hfd in Hopen.
    apply bool_decide_eq_true in Hopen. by destruct Hopen. }
  clear Hopen.
  rewrite (lseek_end_open _ _ _ _ _ Hfd) in H.
  rewrite Z.add_0_r in H.
  set (len := Posix.file_length (kernel w) path) in *.
  simpl. fold len.
  destruct (off_t_cases (block_size T n) Hrange)
    as [(Hz & Hoff)|[(Hz & Hoff)|(Hz & Hoff)]]; rewrite Hoff in H; clear Hoff.
  all: case_bool_decide as Hlen; simpl in H.
  all: try (rewrite (lseek_end_open _ _ _ path len) in H
              by (simpl; apply lookup_insert_eq)).
  all: try rewrite (lseek_end_open _ _ _ _ _ Hfd) in H.
  all: unfold Posix.file_length in H; simpl in H;
    fold (Posix.file_length (kernel w) path) in H; fold len in H.
  all: case_bool_decide as Hpos; simpl in H.
  all: try (rewrite (proj2 (Z.eqb_neq _ (-1))) in H by lia); simpl in H.
  all: try (erewrite write1_open in H by (simpl; apply lookup_insert_eq));
    simpl in H.
  all: destruct (write_ok os) eqn:Hw; simpl in H.
  all: try (erewrite mmap_open in H by (simpl; apply lookup_insert_eq));
    simpl in H.
  all: try (destruct (_ && _) eqn:Hmm in H; simpl in H).
  all: try (destruct (size_maps w !! sizes_ a) as [sm|] eqn:Hsm;
            simpl in H; [rewrite ?Hsm in H; simpl in H|done]).
  all: simplify_eq; simpl; rewrite ?lookup_insert_eq, ?Hfd; simpl.
  all: unfold Posix.file_length; simpl; rewrite ?lookup_insert_eq; simpl.
  all: fold (Posix.file_length (kernel w) path); fold len.
  all: try (apply andb_true_iff in Hmm as [Hmm Hdis];
            apply andb_true_iff in Hmm as [Hm1 Hm2];
            apply bool_decide_eq_true in Hm1 as (? & ? & ?);
            apply bool_decide_eq_true in Hm2 as (? & ? & ?)).
  all: split; [done|].
  all: split;
    [|intros _ [(? & ?)|[?|?]];
      first [done | exfalso; lia | split; [done|lia]]].
  all: first
    [ exfalso; lia
    | left; split; [done|]; first [left; lia|right; lia]
    | right; unfold MAP_FAILED;
      split_and!; [lia..|];
      eexists; split_and!; [done|done|done|done|lia|done|lia|lia] ].
Qed.



Lemma cons_neq {A} (x : A) (l : list A) : x :: l ≠ l.
Proof. intros H. apply (f_equal length) in H. simpl in H. lia. Qed.

(** X11: when [allocate] maps a new block (the bucket is empty and the
    result is neither the null pointer nor [MAP_FAILED]) of a rounded size
    that fits [off_t], the backing file grows by exactly that size, and the
    block is a mapping of that size at the old end of the file.  The old
    end, and with it the offset handed to [mmap], is a multiple of the page
    size. *)
Theorem new_block_extends_file {T} (a : Allocator T) n os w p w' :
  valid w a →
  bucket w a (block_size T n) = [] →
  allocate a n os w = Some (p, w') →
  p ≠ NULL → p ≠ MAP_FAILED →
  block_size T n ≤ 2 ^ 63 →
  0 < block_size T n ∧
  backing_length w' a = backing_length w a + block_size T n ∧
  backing_length w a mod kPageSize = 0 ∧
  registry w' a !! p = Some (block_size T n) ∧
  ∃ f, Posix.fdtable (kernel w) !! fd_ a = Some f ∧
    Posix.mappings (kernel w')
    = Posix.mkMapping p (block_size T n) (Posix.of_path f)
        (backing_length w a) :: Posix.mappings (kernel w).
Proof.
  intros Hv Hb Ha Hnull Hfail Hfit.
  pose proof (allocate_system a n os w p w' Ha) as (_ & Hsys & _).
  apply allocate_obs in Ha as [_ Ha]; [|done].
  destruct Ha as [(vec & Hl & _)|(_ & _ & [(-> & _)|(Hr & Hm)])].
  { unfold bucket in Hb. rewrite Hl in Hb. by destruct vec. }
  { done. }
  destruct Hm as [[-> _]|(_ & _ & m & Hm & _)]; [done|].
  destruct Hsys as [[Hsame _]|(_ & _ & Hpos & f & Hfd & Hmaps & _ & _ & _
                               & Hmod & Hgrow & _)].
  { rewrite Hsame in Hm. symmetry in Hm. by apply cons_neq in Hm. }
  split_and!; [done|by apply Hgrow|done|by rewrite Hr, lookup_insert_eq|].
  by exists f.
Qed.

(** X12: a request whose rounded size is zero never gets a block.  When the
    bucket of size zero is empty, [allocate] returns the null pointer or
    [MAP_FAILED], maps nothing and leaves the length of the file as it is;
    on an empty file it returns the null pointer and records nothing, and
    whenever it returns [MAP_FAILED] it has recorded size zero for it. *)
Theorem zero_size_request_maps_nothing {T} (a : Allocator T) n os w p w' :
  valid w a →
  block_size T n = 0 →
  bucket w a 0 = [] →
  allocate a n os w = Some (p, w') →
  (p = NULL ∨ p = MAP_FAILED) ∧
  Posix.mappings (kernel w') = Posix.mappings (kernel w) ∧
  backing_length w' a = backing_length w a ∧
  (backing_length w a ≤ 0 → p = NULL) ∧
  (p = NULL → registry w' a = registry w a) ∧
  (p = MAP_FAILED → registry w' a = <[MAP_FAILED := 0]> (registry w a)).
Proof.
  intros Hv Hz Hb Ha.
  pose proof (allocate_system a n os w p w' Ha) as (_ & Hsys & Hfailure).
  rewrite Hz in Hsys, Hfailure.
  apply allocate_obs in Ha as [_ Ha]; [|done]. rewrite Hz in Ha.
  destruct Ha as [(vec & Hl & _)|(_ & _ & Ha)].
  { unfold bucket in Hb. rewrite Hl in Hb. by destruct vec. }
  destruct Hsys as [[Hsame Hlen]|(_ & _ & Hpos & _)]; [|lia].
  assert (Hlen' : backing_length w' a = backing_length w a)
    by (destruct Hlen as [|[? _]]; [done|lia]).
  assert (Hp : p = NULL ∨ p = MAP_FAILED).
  { destruct Ha as [(-> & _)|(_ & [[-> _]|(_ & _ & m & Hm & _)])];
      [by left|by right|].
    rewrite Hsame in Hm. symmetry in Hm. by apply cons_neq in Hm. }
  split_and!; try done.
  - intros Hempty. apply Hfailure; [done|]. left. by split.
  - intros ->. destruct Ha as [(_ & Hr & _)|(Hr & [[Hp' _]|(_ & _ & m & Hm & _)])];
      [done|done|].
    rewrite Hsame in Hm. symmetry in Hm. by apply cons_neq in Hm.
  - intros ->. destruct Ha as [(Hp' & _)|(Hr & _)]; done.
Qed.

(** X13: the failures the code checks for.  When the bucket is empty and
    the descriptor is not open or the [write] fails, [allocate] returns
    the null pointer, records nothing, maps nothing and leaves the length
    of the file as it is. *)
Theorem seek_and_write_failures_reported {T} (a : Allocator T) n os w :
  valid w a →
  bucket w a (block_size T n) = [] →
  write_ok os = false ∨ Posix.is_open (kernel w) (fd_ a) = false →
  ∃ w', allocate a n os w = Some (NULL, w') ∧
    registry w' a = registry w a ∧
    Posix.mappings (kernel w') = Posix.mappings (kernel w) ∧
    backing_length w' a = backing_length w a ∧
    bucket w' a (block_size T n) = [].
Proof.
  intros Hv Hb Hwhy.
  destruct (allocate_total a n os w Hv) as [[p w'] Ha].
  pose proof (allocate_system a n os w p w' Ha) as (_ & Hsys & Hfailure).
  destruct (Hfailure Hb) as [-> Hlen]; [by right|].
  exists w'. split; [done|].
  apply allocate_obs in Ha as [_ Ha]; [|done].
  destruct Ha as [(vec & Hl & _)|(_ & Hf & Ha)].
  { unfold bucket in Hb. rewrite Hl in Hb. by destruct vec. }
  assert (Hbk : bucket w' a (block_size T n) = [])
    by (unfold bucket; by rewrite Hf, lookup_insert_eq).
  destruct Ha as [(_ & Hr & Hm)
                 |(Hr & [[Hp _]|(_ & Hfresh & m & Hm & Hma & _)])];
    [done|done|].
  exfalso. destruct Hsys as [[Hsame _]|(_ & Hp & _)].
  - rewrite Hsame in Hm. symmetry in Hm. by apply cons_neq in Hm.
  - unfold NULL in Hp. lia.
Qed.

(** ** Every outcome of [allocate], system and handle together *)

Lemma allocate_outcome {T} (a : Allocator T) n os w p w' :
  allocate a n os w = Some (p, w') →
  valid w a →
  valid w' a ∧
  (Posix.of_path <$> Posix.fdtable (kernel w') !! fd_ a)
  = (Posix.of_path <$> Posix.fdtable (kernel w) !! fd_ a) ∧
  ((∃ vec, free_list w a !! block_size T n = Some (vec ++ [p]) ∧
      kernel w' = kernel w ∧ registry w' a = registry w a ∧
      free_list w' a = <[block_size T n := vec]> (free_list w a))
   ∨ (bucket w a (block_size T n) = [] ∧
      free_list w' a = <[block_size T n := []]> (free_list w a) ∧
      Posix.mappings (kernel w') = Posix.mappings (kernel w) ∧
      (backing_length w' a = backing_length w a ∨
       (0 < block_size T n ≤ 2 ^ 63 ∧
        backing_length w' a = backing_length w a + block_size T n)) ∧
      ((p = NULL ∧ registry w' a = registry w a) ∨
       (p = MAP_FAILED ∧
        registry w' a = <[MAP_FAILED := block_size T n]> (registry w a))))
   ∨ (bucket w a (block_size T n) = [] ∧
      free_list w' a = <[block_size T n := []]> (free_list w a) ∧
      registry w' a = <[p := block_size T n]> (registry w a) ∧
      p ≠ MAP_FAILED ∧ 0 < p ∧ 0 < block_size T n ∧
      ¬ mapped (kernel w) p ∧
      ∃ f, Posix.fdtable (kernel w) !! fd_ a = Some f ∧
        Posix.mappings (kernel w')
        = Posix.mkMapping p (block_size T n) (Posix.of_path f)
            (backing_length w a) :: Posix.mappings (kernel w) ∧
        forallb (Posix.disjoint_from p (block_size T n))
          (Posix.mappings (kernel w)) = true ∧
        p mod kPageSize = 0 ∧
        0 ≤ backing_length w a ∧ backing_length w a mod kPageSize = 0 ∧
        (block_size T n ≤ 2 ^ 63 →
         backing_length w' a = backing_length w a + block_size T n) ∧
        (2 ^ 63 < block_size T n →
         backing_length w' a = backing_length w a))).
Proof.
  intros Ha Hv.
  pose proof (allocate_system a n os w p w' Ha) as (Hpath & Hsys & _).
  apply allocate_obs in Ha as [Hv' Ha]; [|done].
  split; [done|]. split; [done|].
  destruct Ha as [(vec & Hl & Hk & Hr & Hf)|(Hb & Hf & Ha)].
  { left. by exists vec. }
  right.
  destruct Ha as [(-> & Hr & Hm)|(Hr & [[-> Hm]|(Hne & Hfresh & m & Hm & _)])].
  - left. destruct Hsys as [[_ Hlen]|(_ & Hp & _)]; [|unfold NULL in Hp; lia].
    split_and!; try done. by left.
  - left. destruct Hsys as [[_ Hlen]|(Hp & _)]; [|done].
    split_and!; try done. by right.
  - right. destruct Hsys as [[Hsame _]|(_ & Hp & Hs & Hrest)].
    { rewrite Hsame in Hm. symmetry in Hm. by apply cons_neq in Hm. }
    by split_and!.
Qed.

Lemma backing_length_same_kernel {T} (a : Allocator T) w w' :
  kernel w' = kernel w → backing_length w' a = backing_length w a.
Proof. unfold backing_length. by intros ->. Qed.

Lemma mappings_elem_mapped k m :
  m ∈ Posix.mappings k → 0 < Posix.m_len m → mapped k (Posix.m_addr m).
Proof. intros Hin Hl. by exists m. Qed.

(** ** The file in pages; nothing is given back *)

Lemma step_grows {U} (h : Allocator U) contract op w live w' live' :
  valid w h →
  step h contract op (w, live) = Some (w', live') →
  valid w' h ∧
  (∀ a, is_Some (registry w h !! a) → is_Some (registry w' h !! a)) ∧
  (∀ m, m ∈ Posix.mappings (kernel w) → m ∈ Posix.mappings (kernel w')) ∧
  backing_length w h ≤ backing_length w' h ∧
  ((∀ T n, ∃ c, 0 ≤ c ∧ block_size T n = c * kPageSize) →
   paged_file h w → paged_file h w') ∧
  (Posix.of_path <$> Posix.fdtable (kernel w') !! fd_ h)
  = (Posix.of_path <$> Posix.fdtable (kernel w) !! fd_ h).
Proof.
  intros Hv Hstep. destruct op as [T n os|T p n].
  - apply step_allocate in Hstep as (p & w1 & Ha & [= -> ->]).
    apply allocate_outcome in Ha as (Hv' & Hpath & Ha); [|done].
    change (valid w1 h) in Hv'.
    change (fd_ (at_type T h)) with (fd_ h) in Hpath.
    change (registry w1 (at_type T h)) with (registry w1 h) in Ha.
    change (registry w (at_type T h)) with (registry w h) in Ha.
    change (backing_length w1 (at_type T h)) with (backing_length w1 h) in Ha.
    change (backing_length w (at_type T h)) with (backing_length w h) in Ha.
    split; [done|]. unfold paged_file.
    destruct Ha as [(vec & _ & Hk & Hr & _)
                   |[(_ & _ & Hm & Hlen & Hr)
                    |(_ & _ & Hr & _ & _ & Hpos & _ & f & _ & Hm & _ & _
                      & Hl0 & _ & Hfit & Hbig)]].
    + rewrite Hr, Hk, (backing_length_same_kernel h _ _ Hk).
      split_and!; try done.
    + rewrite Hm. split_and!; try done.
      * intros a Hs. destruct Hr as [[_ ->]|[_ ->]]; [done|].
        apply lookup_insert_is_Some'. by right.
      * destruct Hlen as [->|[? ->]]; lia.
      * intros Hmul (c0 & Hc0 & Hl). destruct (Hmul T n) as (c & Hc & Hbs).
        destruct Hlen as [->|[? ->]]; [eauto|].
        exists (c0 + c). split; [lia|]. rewrite Hl, Hbs. lia.
    + rewrite Hm, Hr. split_and!; try done.
      * intros a Hs. apply lookup_insert_is_Some'. by right.
      * intros m Hin. by apply list_elem_of_further.
      * destruct (Z.le_gt_cases (block_size T n) (2 ^ 63)) as [Hle|Hgt];
          [rewrite (Hfit Hle)|rewrite (Hbig ltac:(lia))]; lia.
      * intros Hmul (c0 & Hc0 & Hl). destruct (Hmul T n) as (c & Hc & Hbs).
        destruct (Z.le_gt_cases (block_size T n) (2 ^ 63)) as [Hle|Hgt];
          [rewrite (Hfit Hle)|rewrite (Hbig ltac:(lia)); eauto].
        exists (c0 + c). split; [lia|]. rewrite Hl, Hbs. lia.
  - apply step_deallocate in Hstep as (_ & w1 & Hd & [= -> ->]).
    destruct (deallocate_obs (at_type T h) p n w Hv)
      as (w2 & Hd' & Hv' & Hk & Hr & _).
    rewrite Hd in Hd'. injection Hd' as <-.
    change (valid w1 h) in Hv'.
    change (registry w1 (at_type T h)) with (registry w1 h) in Hr.
    change (registry w (at_type T h)) with (registry w h) in Hr.
    unfold paged_file.
    rewrite Hr, Hk, (backing_length_same_kernel h _ _ Hk).
    split_and!; try done.
    intros a Hs. apply lookup_insert_is_Some'. by right.
Qed.

Lemma run_grows {U} (h : Allocator U) contract ops w live w' live' :
  valid w h →
  run h contract ops (w, live) = Some (w', live') →
  valid w' h ∧
  (∀ a, is_Some (registry w h !! a) → is_Some (registry w' h !! a)) ∧
  (∀ m, m ∈ Posix.mappings (kernel w) → m ∈ Posix.mappings (kernel w')) ∧
  backing_length w h ≤ backing_length w' h ∧
  ((∀ T n, ∃ c, 0 ≤ c ∧ block_size T n = c * kPageSize) →
   paged_file h w → paged_file h w') ∧
  (Posix.of_path <$> Posix.fdtable (kernel w') !! fd_ h)
  = (Posix.of_path <$> Posix.fdtable (kernel w) !! fd_ h).
Proof.
  revert w live. induction ops as [|op ops IH]; intros w live Hv Hrun.
  - simplify_eq/=. by split_and!.
  - rewrite run_cons in Hrun.
    destruct (step h contract op (w, live)) as [[w1 live1]|] eqn:Hs;
      [|done].
    simpl in Hrun.
    destruct (step_grows _ _ _ _ _ _ _ Hv Hs)
      as (Hv1 & Hr1 & Hm1 & Hl1 & Hp1 & Hpath1).
    destruct (IH _ _ Hv1 Hrun) as (Hv2 & Hr2 & Hm2 & Hl2 & Hp2 & Hpath2).
    split_and!; [done|auto|auto|lia|auto|congruence].
Qed.

(** X14: nothing is ever given back.  Along every sequence of calls on a
    live handle, whoever the client, the entries of the Size Registry stay,
    the mappings stay, the descriptor keeps its file and the backing file
    does not shrink. *)
Theorem nothing_is_given_back {U} (h : Allocator U)
    contract ops w live w' live' :
  valid w h →
  run h contract ops (w, live) = Some (w', live') →
  valid w' h ∧
  (∀ a, is_Some (registry w h !! a) → is_Some (registry w' h !! a)) ∧
  (∀ m, m ∈ Posix.mappings (kernel w) → m ∈ Posix.mappings (kernel w')) ∧
  backing_length w h ≤ backing_length w' h ∧
  (Posix.of_path <$> Posix.fdtable (kernel w') !! fd_ h)
  = (Posix.of_path <$> Posix.fdtable (kernel w) !! fd_ h).
Proof.
  intros Hv Hrun.
  destruct (run_grows _ _ _ _ _ _ _ Hv Hrun) as (? & ? & ? & ? & _ & ?).
  by split_and!.
Qed.

Lemma history_start contract w0 filename fd_choice ops h w live :
  history contract w0 filename fd_choice ops = Some (h, w, live) →
  ∃ w1, run h contract ops (w1, ∅) = Some (w, live) ∧
    valid w1 h ∧ registry w1 h = ∅ ∧ free_list w1 h = ∅ ∧
    backing_length w1 h = 0 ∧
    Posix.fdtable (kernel w1) !! fd_ h
    = Some (Posix.mkOpenFile filename 0).
Proof.
  unfold history. intros H.
  destruct (New_run filename fd_choice w0) as (r & w1 & HN & Hres).
  rewrite HN in H. simpl in H. destruct r as [l|]; simpl in H; [|done].
  destruct Hres as (h' & Hh & _ & Hfd & _ & Hft & _ & Hlen & _ & _ & Ho
                    & Hr & Hf & _).
  rewrite Hh in H. simpl in H.
  destruct (run h' contract ops (w1, ∅)) as [[w2 live2]|] eqn:Hrun;
    simpl in H; [|done].
  simplify_eq. exists w1. split; [done|].
  apply owners_lookup in Ho as (s & f & Hs & Hf' & _).
  split_and!; try done.
  all: first [by rewrite Hft, lookup_insert_eq | split; eauto].
Qed.

(** X15: after every history the length of the backing file is a whole
    number of pages, the descriptor of the arena is open on the file that
    [New] was given, and that length is what [lseek] reports as the offset
    of the next block as long as it fits [off_t] (beyond that [lseek]
    reports -1). *)
Theorem file_grows_in_pages contract w0 filename fd_choice ops h w live :
  history contract w0 filename fd_choice ops = Some (h, w, live) →
  (∃ c, 0 ≤ c ∧ backing_length w h = c * kPageSize) ∧
  (Posix.of_path <$> Posix.fdtable (kernel w) !! fd_ h) = Some filename ∧
  backing_length w h = Posix.file_length (kernel w) filename ∧
  (Posix.lseek_end (fd_ h) 0 (kernel w)).1 =
    (if bool_decide (backing_length w h ≤ OFF_MAX)
     then backing_length w h else -1).
Proof.
  intros (w1 & Hrun & Hv & _ & _ & Hlen & Hfd)%history_start.
  destruct (run_grows _ _ _ _ _ _ _ Hv Hrun)
    as (_ & _ & _ & Hle & Hpaged & Hpath).
  rewrite Hfd in Hpath. simpl in Hpath.
  assert (Hp : paged_file h w).
  { apply Hpaged; [apply block_size_multiple|]. exists 0. rewrite Hlen. lia. }
  split; [done|]. split; [done|].
  destruct Hp as (c & Hc & Hl).
  unfold backing_length in *.
  destruct (Posix.fdtable (kernel w) !! fd_ h) as [[path pos]|] eqn:Hf;
    simpl in Hpath; [|done].
  simplify_eq. simpl. split; [done|].
  erewrite lseek_end_open by done. rewrite Z.add_0_r.
  simpl in Hl. rewrite Hl.
  case_bool_decide as H1; case_bool_decide as H2; try done; exfalso; nia.
Qed.



(** ** No block is handed out twice *)

Lemma live_after_allocate_null (p size : Z) (live : gmap Z Z) :
  live !! NULL = None →
  (if p =? NULL then live else <[p := size]> live) !! NULL = None.
Proof.
  intros Hn. destruct (Z.eqb_spec p NULL) as [->|Hne]; [done|].
  by rewrite lookup_insert_ne.
Qed.

Lemma step_exclusive {U} (h : Allocator U) op w live w' live' :
  consistent h w live → well_bucketed h w live → exclusive h w live →
  step h true op (w, live) = Some (w', live') →
  exclusive h w' live'.
Proof.
  intros [Hv Hlive Hfree] [Hlv Hb Hmap Hpos] [Hnull Hex Honce] Hstep.
  destruct op as [T n os|T p n].
  - apply step_allocate in Hstep as (p & w1 & Ha & [= -> ->]).
    apply allocate_obs in Ha as [Hv' Ha]; [|done].
    change (registry w1 (at_type T h)) with (registry w1 h) in Ha.
    change (registry w (at_type T h)) with (registry w h) in Ha.
    change (free_list w1 (at_type T h)) with (free_list w1 h) in Ha.
    change (free_list w (at_type T h)) with (free_list w h) in Ha.
    change (bucket w (at_type T h)) with (bucket w h) in Ha.
    split; [by apply live_after_allocate_null|..].
    + destruct Ha as [(vec & Hl & Hk & Hr & Hf)|(Hnil & Hf & Ha)];
        rewrite Hf.
      * intros a size v Ha Hne Hl' Hin.
        apply live_after_allocate in Ha as [->|Ha].
        -- destruct (decide (block_size T n = size)) as [<-|Hns].
           ++ rewrite lookup_insert_eq in Hl'. simplify_eq.
              apply list_elem_of_lookup in Hin as [i Hi].
              pose proof (lookup_lt_Some _ _ _ Hi) as Hlt.
              assert (i = length v); [|lia].
              eapply (Honce _ _ i (length v) p Hl); [|..|done].
              ** by apply lookup_app_l_Some.
              ** rewrite lookup_app_r by lia.
                 by rewrite Nat.sub_diag.
           ++ rewrite lookup_insert_ne in Hl' by done.
              assert (registry w h !! p = Some size) by eauto.
              assert (registry w h !! p = Some (block_size T n)).
              { eapply Hb; [done| |done]. apply elem_of_app. right.
                apply list_elem_of_here. }
              congruence.
        -- destruct (decide (block_size T n = size)) as [<-|Hns].
           ++ rewrite lookup_insert_eq in Hl'. simplify_eq.
              eapply Hex; [done..|]. apply elem_of_app. by left.
           ++ rewrite lookup_insert_ne in Hl' by done. by eapply Hex.
      * intros a size v Ha' Hne Hl' Hin.
        destruct (decide (block_size T n = size)) as [<-|Hns].
        { rewrite lookup_insert_eq in Hl'. simplify_eq.
          by apply elem_of_nil in Hin. }
        rewrite lookup_insert_ne in Hl' by done.
        destruct Ha as [(-> & _)|(_ & [[-> _]|(_ & Hfresh & _)])].
        -- simpl in Ha'. by eapply Hex.
        -- apply live_after_allocate in Ha' as [->|Ha']; [done|].
           by eapply Hex.
        -- apply live_after_allocate in Ha' as [->|Ha']; [|by eapply Hex].
           apply Hfresh, Hmap; [|done]. eauto.
    + destruct Ha as [(vec & Hl & _ & _ & Hf)|(_ & Hf & _)]; rewrite Hf;
        intros size v i j a Hl' Hi Hj Hne;
        (destruct (decide (block_size T n = size)) as [<-|Hns];
         [rewrite lookup_insert_eq in Hl'; simplify_eq
         |rewrite lookup_insert_ne in Hl' by done; by eapply Honce]).
      eapply (Honce _ _ i j a Hl); [by apply lookup_app_l_Some..|done].
  - apply step_deallocate in Hstep as (Hin & w1 & Hd & [= -> ->]).
    destruct (deallocate_obs (at_type T h) p n w Hv)
      as (w2 & Hd' & Hv' & Hk & Hr & Hf).
    rewrite Hd in Hd'. injection Hd' as <-.
    change (registry w (at_type T h)) with (registry w h) in Hf.
    change (free_list w1 (at_type T h)) with (free_list w1 h) in Hf.
    change (free_list w (at_type T h)) with (free_list w h) in Hf.
    change (bucket w (at_type T h)) with (bucket w h) in Hf.
    specialize (Hin eq_refl).
    destruct (Hlive p Hin) as [s Hs]. rewrite Hs in Hf. simpl in Hf.
    assert (Hbk : ∀ x, x ∈ bucket w h s →
              ∃ v, free_list w h !! s = Some v ∧ bucket w h s = v).
    { intros x Hx. unfold bucket in *.
      destruct (free_list w h !! s) as [v|]; simpl in *; [eauto|].
      by apply elem_of_nil in Hx. }
    split; rewrite ?Hf.
    + rewrite lookup_delete_ne; [done|]. intros ->.
      rewrite Hnull in Hin. by destruct Hin.
    + intros a size v [Hap Ha]%lookup_delete_is_Some Hne Hl' Hia.
      destruct (decide (s = size)) as [<-|Hns].
      * rewrite lookup_insert_eq in Hl'. simplify_eq.
        apply elem_of_app in Hia as [Hia|Hia].
        -- destruct (Hbk _ Hia) as (v & Hv0 & Hv1). rewrite Hv1 in Hia.
           by eapply Hex.
        -- apply list_elem_of_singleton in Hia. done.
      * rewrite lookup_insert_ne in Hl' by done. by eapply Hex.
    + intros size v i j a Hl' Hi Hj Hne.
      destruct (decide (s = size)) as [<-|Hns];
        [|rewrite lookup_insert_ne in Hl' by done; by eapply Honce].
      rewrite lookup_insert_eq in Hl'. simplify_eq.
      assert (Hlast : ∀ k, (bucket w h s ++ [p]) !! k = Some a →
                k = length (bucket w h s) ∨
                (bucket w h s !! k = Some a ∧ a ≠ p)).
      { intros k Hlk. apply lookup_app_Some in Hlk as [Hlk|[Hge Hlk]].
        - right. split; [done|]. intros ->.
          assert (Hx : p ∈ bucket w h s)
            by (apply list_elem_of_lookup; eauto).
          destruct (Hbk _ Hx) as (v & Hv0 & Hv1). rewrite Hv1 in Hx.
          by eapply (Hex p s v).
        - left. apply lookup_lt_Some in Hlk. simpl in Hlk. lia. }
      destruct (Hlast i Hi) as [->|[Hi' Hip]],
               (Hlast j Hj) as [->|[Hj' Hjp]]; try done.
      * rewrite lookup_app_r, Nat.sub_diag in Hi by lia. by simplify_eq/=.
      * rewrite lookup_app_r, Nat.sub_diag in Hj by lia. by simplify_eq/=.
      * assert (Hx : a ∈ bucket w h s)
          by (apply list_elem_of_lookup; eauto).
        destruct (Hbk _ Hx) as (v & Hv0 & Hv1). rewrite Hv1 in *.
        by eapply Honce.
Qed.

Lemma run_exclusive {U} (h : Allocator U) ops w live w' live' :
  consistent h w live → well_bucketed h w live → exclusive h w live →
  run h true ops (w, live) = Some (w', live') →
  exclusive h w' live'.
Proof.
  revert w live. induction ops as [|op ops IH]; intros w live Hc Hb He Hrun.
  - by simplify_eq/=.
  - rewrite run_cons in Hrun.
    destruct (step h true op (w, live)) as [[w1 live1]|] eqn:Hs; [|done].
    simpl in Hrun.
    eapply IH; [| | |done];
      eauto using step_consistent, step_well_bucketed, step_exclusive.
Qed.

(** A new arena satisfies every invariant. *)
Lemma start_invariants {U} (h : Allocator U) w :
  valid w h → registry w h = ∅ → free_list w h = ∅ →
  consistent h w ∅ ∧ well_bucketed h w ∅ ∧ exclusive h w ∅ ∧
  apart h w ∧ in_file h w.
Proof.
  intros Hv Hr Hf.
  split_and!; split; rewrite ?Hr, ?Hf; try done.
  all: intros; by rewrite ?lookup_empty in *.
Qed.

Lemma history_exclusive w0 filename fd_choice ops h w live :
  history true w0 filename fd_choice ops = Some (h, w, live) →
  exclusive h w live.
Proof.
  intros (w1 & Hrun & Hv & Hr & Hf & _)%history_start.
  destruct (start_invariants h w1 Hv Hr Hf) as (Hc & Hb & He & _).
  eauto using run_exclusive.
Qed.

(** X16: for a client that keeps the contract, [allocate] never returns an
    address that is live ([MAP_FAILED] apart); a live address is in no
    bucket of the Free List, and no address is in the Free List twice,
    neither in one bucket nor in two. *)
Theorem no_block_handed_out_twice w0 filename fd_choice ops h w live :
  history true w0 filename fd_choice ops = Some (h, w, live) →
  (∀ T n os p w',
     allocate (at_type T h) n os w = Some (p, w') →
     p ≠ MAP_FAILED → live !! p = None) ∧
  (∀ a size vec,
     is_Some (live !! a) → a ≠ MAP_FAILED →
     free_list w h !! size = Some vec → a ∉ vec) ∧
  (∀ size1 size2 vec1 vec2 i j a,
     free_list w h !! size1 = Some vec1 → vec1 !! i = Some a →
     free_list w h !! size2 = Some vec2 → vec2 !! j = Some a →
     a ≠ MAP_FAILED → size1 = size2 ∧ i = j).
Proof.
  intros Hh.
  pose proof (history_consistent _ _ _ _ _ _ _ _ Hh) as [Hv Hlive _].
  pose proof (history_well_bucketed _ _ _ _ _ _ _ Hh) as [_ Hb Hmap _].
  pose proof (history_exclusive _ _ _ _ _ _ _ Hh) as [Hnull Hex Honce].
  split_and!.
  - intros T n os p w' Ha Hne.
    apply allocate_obs in Ha as [_ Ha]; [|done].
    change (free_list w (at_type T h)) with (free_list w h) in Ha.
    destruct (live !! p) as [s|] eqn:Hp; [exfalso|done].
    destruct Ha as [(vec & Hl & _)
                   |(_ & _ & [(-> & _)|(_ & [[-> _]|(_ & Hfresh & _)])])].
    + eapply (Hex p); [by rewrite Hp|done|done|].
      apply elem_of_app. right. apply list_elem_of_here.
    + by rewrite Hnull in Hp.
    + done.
    + apply Hfresh, Hmap; [|done]. apply Hlive. by rewrite Hp.
  - done.
  - intros size1 size2 vec1 vec2 i j a Hl1 Hi Hl2 Hj Hne.
    assert (size1 = size2) as <-.
    { assert (registry w h !! a = Some size1).
      { eapply Hb; [done| |done]. apply list_elem_of_lookup. eauto. }
      assert (registry w h !! a = Some size2).
      { eapply Hb; [done| |done]. apply list_elem_of_lookup. eauto. }
      congruence. }
    split; [done|]. rewrite Hl1 in Hl2. simplify_eq. by eapply Honce.
Qed.

(** ** Where the blocks lie *)

Lemma block_mapping_same k k' a size m :
  Posix.mappings k' = Posix.mappings k →
  block_mapping k' a size m ↔ block_mapping k a size m.
Proof. unfold block_mapping. by intros ->. Qed.

Lemma block_mapping_cons k k' m0 a size m :
  Posix.mappings k' = m0 :: Posix.mappings k →
  block_mapping k' a size m ↔ (m = m0 ∧ Posix.m_addr m0 = a ∧
                                Posix.m_len m0 = size)
                               ∨ block_mapping k a size m.
Proof.
  unfold block_mapping. intros ->. rewrite elem_of_cons. split.
  - intros ([->|Hin] & Ha & Hl); [left|right]; done.
  - intros [(-> & Ha & Hl)|(Hin & Ha & Hl)]; split_and!; auto.
Qed.

Lemma disjoint_from_spec p size k m :
  forallb (Posix.disjoint_from p size) (Posix.mappings k) = true →
  m ∈ Posix.mappings k →
  p + size ≤ Posix.m_addr m ∨ Posix.m_addr m + Posix.m_len m ≤ p.
Proof.
  rewrite forallb_forall. intros Hall Hin%list_elem_of_In.
  specialize (Hall _ Hin). unfold Posix.disjoint_from in Hall.
  by apply bool_decide_eq_true in Hall.
Qed.

Lemma step_apart {U} (h : Allocator U) op w live w' live' :
  consistent h w live → apart h w →
  step h true op (w, live) = Some (w', live') →
  apart h w'.
Proof.
  intros [Hv Hlive Hfree] [Hmp Hap] Hstep.
  destruct op as [T n os|T p n].
  - apply step_allocate in Hstep as (p & w1 & Ha & [= -> ->]).
    apply allocate_outcome in Ha as (_ & _ & Ha); [|done].
    change (registry w1 (at_type T h)) with (registry w1 h) in Ha.
    change (registry w (at_type T h)) with (registry w h) in Ha.
    change (backing_length w (at_type T h)) with (backing_length w h) in Ha.
    destruct Ha as [(vec & _ & Hk & Hr & _)
                   |[(_ & _ & Hm & _ & Hr)
                    |(_ & _ & Hr & Hne & _ & Hpos & Hfresh & f & _ & Hm
                      & Hdis & Hal & _)]].
    + split; rewrite ?Hr, ?Hk; done.
    + assert (Hreg : ∀ a size, registry w1 h !! a = Some size →
                a ≠ MAP_FAILED → registry w h !! a = Some size).
      { intros a size Hl Hne. destruct Hr as [[_ Hr]|[_ Hr]];
          rewrite Hr in Hl; [done|]. by rewrite lookup_insert_ne in Hl. }
      split.
      * intros a size Hl Hne. destruct (Hmp a size) as (Hal & m & Hbm); auto.
        split; [done|]. exists m. by apply (block_mapping_same _ _ _ _ _ Hm).
      * intros a b sa sb Hla Hlb Hna Hnb. eauto.
    + split; rewrite Hr.
      * intros a size Hl Hna. destruct (decide (p = a)) as [->|Hpa].
        -- rewrite lookup_insert_eq in Hl. simplify_eq. split; [done|].
           eexists. apply (block_mapping_cons _ _ _ _ _ _ Hm). by left.
        -- rewrite lookup_insert_ne in Hl by done.
           destruct (Hmp a size) as (Hal' & m & Hbm); auto.
           split; [done|]. exists m.
           apply (block_mapping_cons _ _ _ _ _ _ Hm). by right.
      * assert (Hnew : ∀ b sb, registry w h !! b = Some sb →
                  b ≠ MAP_FAILED →
                  p + block_size T n ≤ b ∨ b + sb ≤ p).
        { intros b sb Hlb Hnb.
          destruct (Hmp b sb) as (_ & m & Hin & <- & <-); [done..|].
          by eapply disjoint_from_spec. }
        intros a b sa sb Hla Hlb Hna Hnb Hab.
        destruct (decide (p = a)) as [<-|Hpa],
                 (decide (p = b)) as [<-|Hpb]; [done|..].
        -- rewrite lookup_insert_eq in Hla.
           rewrite lookup_insert_ne in Hlb by done. simplify_eq. eauto.
        -- rewrite lookup_insert_eq in Hlb.
           rewrite lookup_insert_ne in Hla by done. simplify_eq.
           destruct (Hnew a sa) as [?|?]; auto.
        -- rewrite lookup_insert_ne in Hla, Hlb by done. eauto.
  - apply step_deallocate in Hstep as (Hin & w1 & Hd & [= -> ->]).
    destruct (deallocate_obs (at_type T h) p n w Hv)
      as (w2 & Hd' & _ & Hk & Hr & _).
    rewrite Hd in Hd'. injection Hd' as <-.
    change (registry w1 (at_type T h)) with (registry w1 h) in Hr.
    change (registry w (at_type T h)) with (registry w h) in Hr.
    destruct (Hlive p (Hin eq_refl)) as [s Hs].
    rewrite Hs in Hr. simpl in Hr. rewrite insert_id in Hr by done.
    split; rewrite ?Hr, ?Hk; done.
Qed.

Lemma step_in_file {U} (h : Allocator U) op w live w' live' :
  consistent h w live → in_file h w → fits_off_t op →
  step h true op (w, live) = Some (w', live') →
  in_file h w'.
Proof.
  intros [Hv Hlive Hfree] [Hwi Hfa] Hfit Hstep.
  destruct op as [T n os|T p n].
  - apply step_allocate in Hstep as (p & w1 & Ha & [= -> ->]).
    simpl in Hfit.
    apply allocate_outcome in Ha as (_ & Hpath & Ha); [|done].
    change (fd_ (at_type T h)) with (fd_ h) in Hpath, Ha.
    change (registry w1 (at_type T h)) with (registry w1 h) in Ha.
    change (registry w (at_type T h)) with (registry w h) in Ha.
    change (backing_length w1 (at_type T h)) with (backing_length w1 h) in Ha.
    change (backing_length w (at_type T h)) with (backing_length w h) in Ha.
    destruct Ha as [(vec & _ & Hk & Hr & _)
                   |[(_ & _ & Hm & Hlen & Hr)
                    |(_ & _ & Hr & Hne & _ & Hpos & Hfresh & f & Hfd & Hm
                      & _ & _ & Hl0 & Hlmod & Hgrow & _)]].
    + split; rewrite ?Hr, ?Hk, ?(backing_length_same_kernel h _ _ Hk); done.
    + assert (Hreg : ∀ a size, registry w1 h !! a = Some size →
                a ≠ MAP_FAILED → registry w h !! a = Some size).
      { intros a size Hl Hne. destruct Hr as [[_ Hr]|[_ Hr]];
          rewrite Hr in Hl; [done|]. by rewrite lookup_insert_ne in Hl. }
      assert (Hle : backing_length w h ≤ backing_length w1 h)
        by (destruct Hlen as [->|[? ->]]; lia).
      split.
      * intros a size m Hl Hna Hbm%(block_mapping_same _ _ _ _ _ Hm).
        destruct (Hwi a size m) as (Hp & Hmod & H0 & Hin); auto.
        rewrite Hpath. split_and!; try done. lia.
      * intros a b sa sb ma mb Hla Hlb Hna Hnb Hab
          Hma%(block_mapping_same _ _ _ _ _ Hm)
          Hmb%(block_mapping_same _ _ _ _ _ Hm).
        eauto.
    + specialize (Hgrow Hfit).
      assert (Hnew : ∀ m, block_mapping (kernel w1) p (block_size T n) m →
                m = Posix.mkMapping p (block_size T n) (Posix.of_path f)
                      (backing_length w h)).
      { intros m [(-> & _)|(Hin & Hma & Hml)]%(block_mapping_cons _ _ _ _ _ _ Hm);
          [done|].
        exfalso. apply Hfresh. exists m. split_and!; [done..|lia]. }
      assert (Hold : ∀ a size m, a ≠ p →
                block_mapping (kernel w1) a size m →
                block_mapping (kernel w) a size m).
      { intros a size m Hap
          [(-> & Hma & _)|Hbm]%(block_mapping_cons _ _ _ _ _ _ Hm);
          [|done]. simpl in Hma. congruence. }
      split; rewrite Hr.
      * intros a size m Hl Hna Hbm. rewrite Hpath, Hfd. simpl.
        destruct (decide (p = a)) as [->|Hpa].
        -- rewrite lookup_insert_eq in Hl. simplify_eq.
           rewrite (Hnew _ Hbm). simpl. split_and!; try done. lia.
        -- rewrite lookup_insert_ne in Hl by done.
           destruct (Hwi a size m) as (Hp & Hmod & H0 & Hin); auto.
           rewrite Hfd in Hp. simpl in Hp. split_and!; try done. lia.
      * intros a b sa sb ma mb Hla Hlb Hna Hnb Hab Hma Hmb.
        destruct (decide (p = a)) as [<-|Hpa],
                 (decide (p = b)) as [<-|Hpb]; [done|..].
        -- rewrite lookup_insert_eq in Hla.
           rewrite lookup_insert_ne in Hlb by done. simplify_eq.
           rewrite (Hnew _ Hma). simpl.
           destruct (Hwi b sb mb) as (_ & _ & _ & Hin); auto.
        -- rewrite lookup_insert_eq in Hlb.
           rewrite lookup_insert_ne in Hla by done. simplify_eq.
           rewrite (Hnew _ Hmb). simpl.
           destruct (Hwi a sa ma) as (_ & _ & _ & Hin); auto.
        -- rewrite lookup_insert_ne in Hla, Hlb by done. eauto 10.
  - apply step_deallocate in Hstep as (Hin & w1 & Hd & [= -> ->]).
    destruct (deallocate_obs (at_type T h) p n w Hv)
      as (w2 & Hd' & _ & Hk & Hr & _).
    rewrite Hd in Hd'. injection Hd' as <-.
    change (registry w1 (at_type T h)) with (registry w1 h) in Hr.
    change (registry w (at_type T h)) with (registry w h) in Hr.
    destruct (Hlive p (Hin eq_refl)) as [s Hs].
    rewrite Hs in Hr. simpl in Hr. rewrite insert_id in Hr by done.
    split; rewrite ?Hr, ?Hk, ?(backing_length_same_kernel h _ _ Hk); done.
Qed.

Lemma run_apart {U} (h : Allocator U) ops w live w' live' :
  consistent h w live → apart h w →
  run h true ops (w, live) = Some (w', live') →
  apart h w'.
Proof.
  revert w live. induction ops as [|op ops IH]; intros w live Hc Ha Hrun.
  - by simplify_eq/=.
  - rewrite run_cons in Hrun.
    destruct (step h true op (w, live)) as [[w1 live1]|] eqn:Hs; [|done].
    simpl in Hrun.
    eapply IH; [| |done]; eauto using step_consistent, step_apart.
Qed.

Lemma run_in_file {U} (h : Allocator U) ops w live w' live' :
  consistent h w live → in_file h w → Forall fits_off_t ops →
  run h true ops (w, live) = Some (w', live') →
  in_file h w'.
Proof.
  intros Hc Hi Hfit. revert w live Hc Hi.
  induction Hfit as [|op ops Hop Hfit IH]; intros w live Hc Hi Hrun.
  - by simplify_eq/=.
  - rewrite run_cons in Hrun.
    destruct (step h true op (w, live)) as [[w1 live1]|] eqn:Hs; [|done].
    simpl in Hrun.
    eapply IH; [| |done]; eauto using step_consistent, step_in_file.
Qed.

(** X17: for a client that keeps the contract, the blocks never overlap.
    Every live address other than [MAP_FAILED] lies at a page boundary and
    is the base of a mapping of the rounded size it was allocated with,
    which is positive; two different live addresses are the bases of
    ranges of their rounded sizes that do not meet. *)
Theorem live_blocks_do_not_overlap w0 filename fd_choice ops h w live :
  history true w0 filename fd_choice ops = Some (h, w, live) →
  (∀ a size, live !! a = Some size → a ≠ MAP_FAILED →
     0 < size ∧ a mod kPageSize = 0 ∧
     ∃ m, m ∈ Posix.mappings (kernel w) ∧
          Posix.m_addr m = a ∧ Posix.m_len m = size) ∧
  (∀ a b sa sb, live !! a = Some sa → live !! b = Some sb →
     a ≠ MAP_FAILED → b ≠ MAP_FAILED → a ≠ b →
     a + sa ≤ b ∨ b + sb ≤ a).
Proof.
  intros Hh.
  pose proof (history_well_bucketed _ _ _ _ _ _ _ Hh) as [Hlv _ _ Hpos].
  destruct (history_start _ _ _ _ _ _ _ _ Hh)
    as (w1 & Hrun & Hv & Hr & Hf & _).
  destruct (start_invariants h w1 Hv Hr Hf) as (Hc & _ & _ & Ha & _).
  destruct (run_apart _ _ _ _ _ _ Hc Ha Hrun) as [Hmp Hap].
  split.
  - intros a size Hl Hne. specialize (Hlv _ _ Hl Hne).
    destruct (Hmp _ _ Hlv Hne) as (Hal & m & Hbm). eauto.
  - intros a b sa sb Hla Hlb Hna Hnb. eauto.
Qed.

(** X18: as long as the file of the arena is not opened again (after
    [New], the history has calls of [allocate] and [deallocate] on the
    arena and nothing else: a second [New] or [SetDefault] on the same path
    would truncate the file under the live blocks), for a client that keeps
    the contract and asks for no block beyond the range of [off_t], every
    live block other than [MAP_FAILED] maps a range of the file [New] was
    given that starts at a page boundary and lies within the file, and the
    ranges of two different live blocks do not meet: each block has file
    bytes of its own. *)
Theorem live_blocks_in_file w0 filename fd_choice ops h w live :
  history true w0 filename fd_choice ops = Some (h, w, live) →
  Forall fits_off_t ops →
  (∀ a size m, live !! a = Some size → a ≠ MAP_FAILED →
     block_mapping (kernel w) a size m →
     Posix.m_path m = filename ∧ Posix.m_off m mod kPageSize = 0 ∧
     0 ≤ Posix.m_off m ∧
     Posix.m_off m + size ≤ Posix.file_length (kernel w) filename) ∧
  (∀ a b sa sb ma mb, live !! a = Some sa → live !! b = Some sb →
     a ≠ MAP_FAILED → b ≠ MAP_FAILED → a ≠ b →
     block_mapping (kernel w) a sa ma → block_mapping (kernel w) b sb mb →
     Posix.m_off ma + sa ≤ Posix.m_off mb ∨
     Posix.m_off mb + sb ≤ Posix.m_off ma).
Proof.
  intros Hh Hfit.
  pose proof (history_well_bucketed _ _ _ _ _ _ _ Hh) as [Hlv _ _ _].
  destruct (history_start _ _ _ _ _ _ _ _ Hh)
    as (w1 & Hrun & Hv & Hr & Hf & _ & Hfd).
  destruct (start_invariants h w1 Hv Hr Hf) as (Hc & _ & _ & _ & Hi).
  destruct (run_in_file _ _ _ _ _ _ Hc Hi Hfit Hrun) as [Hwi Hfa].
  destruct (run_grows _ _ _ _ _ _ _ Hv Hrun) as (_ & _ & _ & _ & _ & Hpath).
  rewrite Hfd in Hpath. simpl in Hpath.
  split.
  - intros a size m Hl Hne Hbm. specialize (Hlv _ _ Hl Hne).
    destruct (Hwi _ _ _ Hlv Hne Hbm) as (Hp & Hmod & H0 & Hin).
    rewrite Hpath in Hp. simplify_eq.
    assert (backing_length w h = Posix.file_length (kernel w) (Posix.m_path m)).
    { unfold backing_length.
      destruct (Posix.fdtable (kernel w) !! fd_ h) as [f|]; [|done].
      simpl in Hpath. by injection Hpath as ->. }
    split_and!; try done. lia.
  - intros a b sa sb ma mb Hla Hlb Hna Hnb. eauto.
Qed.





(** ** A second arena on the same path *)

(** The creation of another arena leaves the maps of a handle that is
    alive as they are. *)
Lemma New_frame {U} (h : Allocator U) filename fd2 w l w' :
  valid w h →
  New filename fd2 w = Some (Some l, w') →
  valid w' h ∧ registry w' h = registry w h ∧
  free_list w' h = free_list w h ∧
  Posix.mappings (kernel w') = Posix.mappings (kernel w) ∧
  Posix.is_open (kernel w) fd2 = false ∧
  Posix.fdtable (kernel w')
  = <[fd2 := Posix.mkOpenFile filename 0]> (Posix.fdtable (kernel w)) ∧
  Posix.files (kernel w') = <[filename := 0]> (Posix.files (kernel w)).
Proof.
  intros [[s Hs] [f Hf]] HN.
  destruct (New_run filename fd2 w) as (r & w1 & HN' & Hr).
  rewrite HN in HN'. injection HN' as <- <-.
  destruct Hr as (h2 & _ & _ & _ & Hclosed & Hft & Hfiles & _ & Hs2 & Hf2
                  & _ & _ & _ & Hsm & Hfm & _ & _ & Hmaps).
  assert (sizes_ h2 ≠ sizes_ h) by (intros Heq; congruence).
  assert (free_blocks_ h2 ≠ free_blocks_ h) by (intros Heq; congruence).
  unfold valid, registry, free_list. rewrite Hsm, Hfm.
  rewrite !lookup_insert_ne by done.
  split_and!; try done; rewrite ?Hs, ?Hf; eauto.
Qed.

(** X19: every [New] truncates the file on its path (O_TRUNC, l.45).  When,
    after a history of a client that keeps the contract and asks for no
    block beyond the range of [off_t], a second arena is created on the
    path of the first, the file has length zero; the first arena keeps its
    Size Registry and Free List, and every live block of it other than
    [MAP_FAILED] is still mapped on the file, but now ends beyond the end
    of the file.  The first arena sees the length zero too: the next block
    it maps starts at offset zero of the file again. *)
Theorem second_New_truncates_under_live_blocks
    w0 filename fd_choice ops h w live fd2 l w' :
  history true w0 filename fd_choice ops = Some (h, w, live) →
  Forall fits_off_t ops →
  New filename fd2 w = Some (Some l, w') →
  Posix.file_length (kernel w') filename = 0 ∧
  backing_length w' h = 0 ∧
  valid w' h ∧ registry w' h = registry w h ∧
  free_list w' h = free_list w h ∧
  (∀ a size, live !! a = Some size → a ≠ MAP_FAILED →
     ∃ m, block_mapping (kernel w') a size m ∧
       Posix.m_path m = filename ∧ 0 ≤ Posix.m_off m ∧
       Posix.file_length (kernel w') filename < Posix.m_off m + size) ∧
  (∀ T n os p w'',
     bucket w' h (block_size T n) = [] →
     allocate (at_type T h) n os w' = Some (p, w'') →
     p ≠ NULL → p ≠ MAP_FAILED →
     Posix.mappings (kernel w'')
     = Posix.mkMapping p (block_size T n) filename 0
         :: Posix.mappings (kernel w')).
Proof.
  intros Hh Hfit HN.
  pose proof (history_well_bucketed _ _ _ _ _ _ _ Hh) as [Hlv _ _ Hpos].
  destruct (history_start _ _ _ _ _ _ _ _ Hh)
    as (w1 & Hrun & Hv1 & Hr1 & Hf1 & _ & Hfd).
  destruct (start_invariants h w1 Hv1 Hr1 Hf1) as (Hc & _ & _ & Ha & Hi).
  destruct (run_in_file _ _ _ _ _ _ Hc Hi Hfit Hrun) as [Hwi _].
  destruct (run_apart _ _ _ _ _ _ Hc Ha Hrun) as [Hmp _].
  destruct (run_grows _ _ _ _ _ _ _ Hv1 Hrun)
    as (Hv & _ & _ & _ & _ & Hpath).
  rewrite Hfd in Hpath. simpl in Hpath.
  destruct (New_frame h _ _ _ _ _ Hv HN)
    as (Hv' & Hr' & Hf' & Hmaps & Hclosed & Hft & Hfiles).
  destruct (Posix.fdtable (kernel w) !! fd_ h) as [f|] eqn:Hf; [|done].
  simpl in Hpath. injection Hpath as Hpath.
  assert (Hne : fd2 ≠ fd_ h).
  { intros ->. unfold Posix.is_open in Hclosed.
    rewrite Hf in Hclosed. by rewrite bool_decide_eq_true_2 in Hclosed. }
  assert (Hf2 : Posix.fdtable (kernel w') !! fd_ h = Some f)
    by (by rewrite Hft, lookup_insert_ne).
  assert (Hlen : Posix.file_length (kernel w') filename = 0)
    by (unfold Posix.file_length; by rewrite Hfiles, lookup_insert_eq).
  assert (Hbl : backing_length w' h = 0)
    by (unfold backing_length; by rewrite Hf2, Hpath).
  split_and!; try done.
  - intros a size Hl Hna. specialize (Hlv _ _ Hl Hna).
    destruct (Hmp _ _ Hlv Hna) as (_ & m & Hbm).
    destruct (Hwi _ _ _ Hlv Hna Hbm) as (Hp & _ & H0 & _).
    simpl in Hp. injection Hp as Hp.
    specialize (Hpos _ _ Hlv Hna).
    exists m. split_and!; [|congruence|done|lia].
    destruct Hbm as (Hin & Hma & Hml). split_and!; try done.
    by rewrite Hmaps.
  - intros T n os p w'' Hb Hal Hnull Hfail.
    apply allocate_outcome in Hal as (_ & _ & Hal); [|done].
    change (free_list w' (at_type T h)) with (free_list w' h) in Hal.
    change (bucket w' (at_type T h)) with (bucket w' h) in Hal.
    change (backing_length w' (at_type T h)) with (backing_length w' h) in Hal.
    change (fd_ (at_type T h)) with (fd_ h) in Hal.
    destruct Hal as [(vec & Hl & _)|[(_ & _ & _ & _ & [[-> _]|[-> _]])
                                    |(_ & _ & _ & _ & _ & _ & _ & f' & Hf'' & Hm & _)]].
    + unfold bucket in Hb. rewrite Hl in Hb. by destruct vec.
    + done.
    + done.
    + rewrite Hf2 in Hf''. injection Hf'' as <-.
      by rewrite Hm, Hbl, Hpath.
Qed.

End Allocator.

(** * Runs on a system with pages of 4096 bytes *)

Lemma page_4096_pow2 : (4096 | 2 ^ 64).
Proof. by exists (2 ^ 52). Qed.

Example block_size_samples :
  block_size 4096 int 10 = 4096 ∧ block_size 4096 char 4096 = 4096 ∧
  block_size 4096 char 4097 = 8192 ∧ block_size 4096 double 1024 = 8192.
Proof. repeat split; reflexivity. Qed.

(** A page is allocated, deallocated and allocated again: the address is
    the same and the file has not grown. *)
Example reuse_of_a_page :
  observe
    (SetDefault "test.db" 3;;
     h ← Allocator_default char;
     a ← allocate 4096 h 4096 (mkOracle true 65536);
     deallocate h a 4096;;
     len ← ((λ w, Some (backing_length w h, w)) : M Z);
     b ← allocate 4096 h 1 (mkOracle true 131072);
     mret (h, a, b, len))
    (λ '(h, a, b, len) w, (a, b, len, backing_length w h))
    start
  = Some (65536, 65536, 4096, 4096).
Proof. vm_compute. reflexivity. Qed.

(** No address range is handed out twice: a choice that overlaps a mapping
    stands for a failing [mmap].  The file has grown all three times. *)
Example two_blocks :
  observe
    (SetDefault "test.db" 3;;
     h ← Allocator_default int;
     a ← allocate 4096 h 10 (mkOracle true 65536);
     b ← allocate 4096 h 10 (mkOracle true 65536);
     c ← allocate 4096 h 10 (mkOracle true 69632);
     mret (h, a, b, c))
    (λ '(h, a, b, c) w, (a, b, c, backing_length w h))
    start
  = Some (65536, MAP_FAILED, 69632, 12288).
Proof. vm_compute. reflexivity. Qed.

(** C1, where the claim fails: [allocate(SIZE_MAX)] on [Allocator<char>].
    The byte count is no multiple of the page size, and rounding it up
    wraps around to zero. *)
Lemma page_rounding_wraps :
  block_size 4096 char SIZE_MAX = 0 ∧
  ¬ smallest_multiple_ge 4096 (SIZE_MAX * sizeof char)
      (block_size 4096 char SIZE_MAX).
Proof.
  split; [reflexivity|]. intros (_ & H & _). revert H.
  change (block_size 4096 char SIZE_MAX) with 0.
  unfold SIZE_MAX. simpl. lia.
Qed.

Lemma page_rounding_in_range_witness :
  0 ≤ 10 * sizeof int ≤ max_block 4096 ∧
  smallest_multiple_ge 4096 (10 * sizeof int) (block_size 4096 int 10) ∧
  block_size 4096 int 10 = 4096.
Proof.
  assert (H : 0 ≤ 10 * sizeof int ≤ max_block 4096)
    by (vm_compute; split; discriminate).
  split; [exact H|].
  split; [|reflexivity].
  exact (proj1 (page_rounding_in_range 4096 eq_refl int 10 H)).
Defined.

(** C3, the case the code misses: on a fresh arena, with the [lseek] and
    the [write] going through and [mmap] failing, [allocate] does not
    return the null pointer but [MAP_FAILED], and the Size Registry has
    gained an entry for it. *)
Theorem allocate_mmap_failure_unchecked :
  observe
    (SetDefault "test.db" 3;;
     h ← Allocator_default char;
     p ← allocate 4096 h 1 (mkOracle true 0);
     mret (h, p))
    (λ '(h, p) w, (p, bool_decide (p = NULL), registry w h !! p))
    start
  = Some (MAP_FAILED, false, Some 4096).
Proof. vm_compute. reflexivity. Qed.

(** C7, where the claim fails: after [SetDefault] and [FreeDefault] the
    descriptor of the default handle is still open. *)
Lemma free_default_leaves_descriptor_open :
  observe
    (SetDefault "test.db" 3;;
     p ← get_default;
     d ← load_allocator p;
     FreeDefault;;
     mret (fd_ d))
    (λ fd w, (fd, Posix.is_open (kernel w) fd,
              Posix.file_exists (kernel w) "test.db"))
    start
  = Some (3, true, true).
Proof. vm_compute. reflexivity. Qed.

(** C9, where the claim fails: a request for zero elements on an arena
    whose file is not empty.  The size recorded is zero. *)
Lemma zero_size_registered :
  ('(h, w, _) ← history 4096 true start "test.db" 3
                  [OAllocate char 1 (mkOracle true 65536);
                   OAllocate char 0 (mkOracle true 69632)];
   registry w h !! MAP_FAILED) = Some 0 ∧
  ¬ positive_multiple 4096 0.
Proof.
  split; [vm_compute; reflexivity|]. intros (c & Hc & H). lia.
Qed.

Lemma deallocate_unrecorded_witness :
  ∃ (a : Allocator int) w,
    (SetDefault "test.db" 3;; Allocator_default int) start = Some (a, w) ∧
    valid w a ∧ registry w a !! 4096 = None ∧
    ∃ w', deallocate a 4096 1 w = Some (tt, w') ∧
          bucket w' a 0 = bucket w a 0 ++ [4096].
Proof.
  eexists _, _. split; [vm_compute; reflexivity|].
  match goal with |- valid ?w ?a ∧ _ =>
    assert (Hv : valid w a) by (split; eexists; vm_compute; reflexivity);
    assert (Hn : registry w a !! 4096 = None) by (vm_compute; reflexivity);
    destruct (deallocate_unrecorded a 4096 1 w Hv Hn)
      as (w' & Hd & _ & Hb & _)
  end.
  split; [exact Hv|]. split; [exact Hn|]. exists w'.
  split; [exact Hd|exact Hb].
Defined.

Lemma free_default_releases_handle_witness :
  ∃ w p d,
    SetDefault "test.db" 3 start = Some (tt, w) ∧
    default_allocator w = Some p ∧ allocators w !! p = Some d ∧
    valid w d ∧
    ∃ w', FreeDefault w = Some (tt, w') ∧ kernel w' = kernel w ∧
          Posix.is_open (kernel w') (fd_ d) = true ∧
          Posix.file_exists (kernel w') "test.db" = true.
Proof.
  eexists _, _, _. split; [vm_compute; reflexivity|].
  match goal with |- ?P ∧ _ =>
    assert (Hp : P) by (vm_compute; reflexivity)
  end.
  split; [exact Hp|].
  match goal with |- ?P ∧ _ =>
    assert (Hd : P) by (vm_compute; reflexivity)
  end.
  split; [exact Hd|].
  match goal with |- valid ?w ?d ∧ _ =>
    assert (Hv : valid w d) by (split; eexists; vm_compute; reflexivity)
  end.
  split; [exact Hv|].
  destruct (free_default_releases_handle _ _ _ Hp Hd Hv)
    as (w' & Hf & _ & _ & _ & _ & Hk & _).
  exists w'. split; [exact Hf|]. split; [exact Hk|].
  rewrite Hk. split; vm_compute; reflexivity.
Defined.

Lemma handles_share_arena_witness :
  ∃ (src : Allocator char) w p d,
    (SetDefault "test.db" 3;; Allocator_default char) start = Some (src, w) ∧
    valid w src ∧
    default_allocator w = Some p ∧ allocators w !! p = Some d ∧ valid w d ∧
    same_arena src (at_type int src) ∧
    block_size 4096 int 0 = default 0 (registry w src !! 65536) ∧
    (∃ h w', Allocator_copy int src w = Some (h, w') ∧ same_arena src h) ∧
    (∃ h w', Allocator_default double w = Some (h, w') ∧ same_arena d h) ∧
    (∃ w1 w2, deallocate src 65536 1 w = Some (tt, w1) ∧
       allocate 4096 (at_type int src) 0 (mkOracle true 0) w1
       = Some (65536, w2)).
Proof.
  destruct (handles_share_arena 4096) as (Hcopy & Hdefault & Hsee).
  eexists _, _, _, _. split; [vm_compute; reflexivity|].
  match goal with |- valid ?w ?a ∧ _ =>
    assert (Hv : valid w a) by (split; eexists; vm_compute; reflexivity)
  end.
  split; [exact Hv|].
  match goal with |- default_allocator ?w = Some ?p ∧ _ =>
    assert (Hp : default_allocator w = Some p) by (vm_compute; reflexivity)
  end.
  split; [exact Hp|].
  match goal with |- allocators ?w !! ?p = Some ?d ∧ _ =>
    assert (Hd : allocators w !! p = Some d) by (vm_compute; reflexivity)
  end.
  split; [exact Hd|].
  match goal with |- valid ?w ?d ∧ _ =>
    assert (Hvd : valid w d) by (split; eexists; vm_compute; reflexivity)
  end.
  split; [exact Hvd|].
  match goal with |- same_arena ?a ?b ∧ _ =>
    assert (Hs : same_arena a b) by (repeat split)
  end.
  split; [exact Hs|].
  match goal with |- ?l = ?r ∧ _ =>
    assert (Hm : l = r) by (vm_compute; reflexivity)
  end.
  split; [exact Hm|].
  split; [|split].
  - destruct (Hcopy _ int _ _ Hv) as (h & w' & Hc & Hsa & _).
    exists h, w'. split; [exact Hc|exact Hsa].
  - destruct (Hdefault double _ _ _ Hp Hd Hvd) as (h & w' & Hc & Hsa & _).
    exists h, w'. split; [exact Hc|exact Hsa].
  - destruct (Hsee _ _ _ _ _ 65536 1 0 (mkOracle true 0) Hs Hv Hm)
      as (w1 & w2 & Hde & _ & _ & Hal).
    exists w1, w2. split; [exact Hde|exact Hal].
Defined.

Lemma registry_complete_witness :
  ∃ h w live,
    history 4096 true start "test.db" 3
      [OAllocate int 10 (mkOracle true 65536)] = Some (h, w, live) ∧
    live !! 65536 = Some 4096 ∧
    ∃ size, registry w h !! 65536 = Some size ∧
      (true = true → 65536 ≠ MAP_FAILED → size = 4096) ∧
      ∀ T n, ∃ w', deallocate (at_type T h) 65536 n w = Some (tt, w') ∧
        registry w' h = registry w h ∧
        bucket w' h size = bucket w h size ++ [65536].
Proof.
  eexists _, _, _.
  match goal with |- ?P ∧ _ =>
    assert (Hh : P) by (vm_compute; reflexivity)
  end.
  split; [exact Hh|].
  match goal with |- ?P ∧ _ =>
    assert (Hin : P) by (vm_compute; reflexivity)
  end.
  split; [exact Hin|].
  exact (registry_complete 4096 _ _ _ _ _ _ _ _ _ _ Hh Hin).
Defined.

Lemma registered_sizes_page_multiples_witness :
  ∃ h w live,
    history 4096 true start "test.db" 3
      [OAllocate int 10 (mkOracle true 65536); ODeallocate int 65536 1]
    = Some (h, w, live) ∧
    (∀ a size, registry w h !! a = Some size →
       ∃ c, 0 ≤ c ∧ size = c * 4096) ∧
    (∀ a size, registry w h !! a = Some size → a ≠ MAP_FAILED →
       positive_multiple 4096 size) ∧
    (0 < block_size 4096 int 10 ↔ 0 < size_t (10 * sizeof int) ≤ 2 ^ 64 - 4096).
Proof.
  eexists _, _, _.
  match goal with |- ?P ∧ _ =>
    assert (Hh : P) by (vm_compute; reflexivity)
  end.
  split; [exact Hh|].
  destruct (registered_sizes_page_multiples 4096 eq_refl page_4096_pow2
              _ _ _ _ _ _ _ _ Hh) as (Hm & Hp & _ & Hpos & _).
  split; [exact Hm|]. split; [exact (Hp eq_refl)|exact (Hpos int 10)].
Defined.

(** C2, where the claim fails: two blocks of one page.  The second is
    allocated and deallocated; then the first is deallocated as well.  No
    allocation has come in between, and yet the next [allocate] of one
    page returns the first block, the last one pushed, not the block that
    was just allocated and deallocated. *)
Lemma lifo_reuse_displaced :
  ∃ h w live w1 w2 w3 live3 w4,
    history 4096 true start "test.db" 3
      [OAllocate char 1 (mkOracle true 65536)] = Some (h, w, live) ∧
    allocate 4096 (at_type char h) 1 (mkOracle true 131072) w
    = Some (131072, w1) ∧
    131072 ≠ NULL ∧ 131072 ≠ MAP_FAILED ∧
    deallocate (at_type char h) 131072 1 w1 = Some (tt, w2) ∧
    Forall (no_allocation_of 4096 (block_size 4096 char 1))
      [ODeallocate char 65536 1] ∧
    run 4096 h true [ODeallocate char 65536 1]
      (w2, delete 131072 (<[131072 := block_size 4096 char 1]> live))
    = Some (w3, live3) ∧
    allocate 4096 (at_type char h) 1 (mkOracle true 0) w3
    = Some (65536, w4) ∧
    ∀ w', allocate 4096 (at_type char h) 1 (mkOracle true 0) w3
          ≠ Some (131072, w').
Proof.
  eexists _, _, _, _, _, _, _, _.
  split; [vm_compute; reflexivity|].
  split; [vm_compute; reflexivity|].
  split; [discriminate|]. split; [discriminate|].
  split; [vm_compute; reflexivity|].
  split; [repeat constructor|].
  split; [vm_compute; reflexivity|].
  match goal with |- ?P ∧ _ => assert (Ha : P) by (vm_compute; reflexivity) end.
  split; [exact Ha|].
  intros w' Ha'. rewrite Ha in Ha'. discriminate Ha'.
Qed.

Lemma lifo_reuse_witness :
  ∃ h w live w1 w2 w3 live3,
    history 4096 true start "test.db" 3
      [OAllocate char 5000 (mkOracle true 131072)] = Some (h, w, live) ∧
    allocate 4096 (at_type int h) 10 (mkOracle true 65536) w
    = Some (65536, w1) ∧
    65536 ≠ NULL ∧ 65536 ≠ MAP_FAILED ∧
    block_size 4096 char 4096 = block_size 4096 int 10 ∧
    deallocate (at_type double h) 65536 5 w1 = Some (tt, w2) ∧
    others_only 4096 h true (block_size 4096 int 10)
      [ODeallocate char 131072 5000;
       OAllocate char 8000 (mkOracle true 0);
       OAllocate char 9000 (mkOracle true 262144)]
      (w2, delete 65536 (<[65536 := block_size 4096 int 10]> live)) ∧
    run 4096 h true
      [ODeallocate char 131072 5000;
       OAllocate char 8000 (mkOracle true 0);
       OAllocate char 9000 (mkOracle true 262144)]
      (w2, delete 65536 (<[65536 := block_size 4096 int 10]> live))
    = Some (w3, live3) ∧
    ∃ w4, allocate 4096 (at_type char h) 4096 (mkOracle false 0) w3
          = Some (65536, w4) ∧
      kernel w4 = kernel w3 ∧
      backing_length w4 h = backing_length w3 h.
Proof.
  eexists _, _, _, _, _, _, _.
  match goal with |- ?P ∧ _ =>
    assert (Hh : P) by (vm_compute; reflexivity)
  end.
  split; [exact Hh|].
  match goal with |- ?P ∧ _ =>
    assert (Ha : P) by (vm_compute; reflexivity)
  end.
  split; [exact Ha|].
  assert (Hn : 65536 ≠ NULL) by discriminate.
  assert (Hf : 65536 ≠ MAP_FAILED) by discriminate.
  assert (Hs : block_size 4096 char 4096 = block_size 4096 int 10)
    by reflexivity.
  split; [exact Hn|]. split; [exact Hf|]. split; [exact Hs|].
  match goal with |- ?P ∧ _ =>
    assert (Hd : P) by (vm_compute; reflexivity)
  end.
  split; [exact Hd|].
  match goal with |- ?P ∧ _ =>
    assert (Ho : P) by (vm_compute; repeat split; discriminate)
  end.
  split; [exact Ho|].
  match goal with |- ?P ∧ _ =>
    assert (Hrun : P) by (vm_compute; reflexivity)
  end.
  split; [exact Hrun|].
  destruct (lifo_reuse 4096 _ _ _ _ _ _ _ _ _ _ _ _ double 5
              [ODeallocate char 131072 5000;
               OAllocate char 8000 (mkOracle true 0);
               OAllocate char 9000 (mkOracle true 262144)]
              _ _ (mkOracle false 0) Hh Ha Hn Hf Hs)
    as (w2 & Hd2 & Hnext).
  rewrite Hd in Hd2. injection Hd2 as <-.
  destruct (Hnext _ _ Ho Hrun) as (w4 & Ha4 & Hk & Hl & _).
  exists w4. split; [exact Ha4|]. split; [exact Hk|exact Hl].
Defined.

(** * Further runs *)


Lemma SetDefault_failure_witness :
  ¬ (0 ≤ -1 ≤ INT_MAX ∧ Posix.is_open (kernel start) (-1) = false) ∧
  ∃ w', SetDefault "test.db" (-1) start = Some (tt, w') ∧
    default_allocator w' = None ∧
    Allocator_default int w' = None ∧
    FreeDefault w' = Some (tt, w').
Proof.
  assert (H : ¬ (0 ≤ -1 ≤ INT_MAX
                 ∧ Posix.is_open (kernel start) (-1) = false))
    by (intros [[? ?] _]; lia).
  split; [exact H|].
  destruct (SetDefault_failure "test.db" (-1) start H)
    as (w' & Hs & Hd & _ & _ & _ & _ & Ha & Hf).
  exists w'. split; [exact Hs|]. split; [exact Hd|].
  split; [exact (Ha int)|exact Hf].
Defined.

Lemma FreeDefault_leaves_dangling_pointer_witness :
  ∃ w p d,
    SetDefault "test.db" 3 start = Some (tt, w) ∧
    default_allocator w = Some p ∧ allocators w !! p = Some d ∧
    valid w d ∧
    ∃ w', FreeDefault w = Some (tt, w') ∧ default_allocator w' = Some p ∧
          FreeDefault w' = None ∧ Allocator_default int w' = None.
Proof.
  eexists _, _, _. split; [vm_compute; reflexivity|].
  match goal with |- ?P ∧ _ => assert (Hp : P) by (vm_compute; reflexivity) end.
  split; [exact Hp|].
  match goal with |- ?P ∧ _ => assert (Hd : P) by (vm_compute; reflexivity) end.
  split; [exact Hd|].
  match goal with |- valid ?w ?d ∧ _ =>
    assert (Hv : valid w d) by (split; eexists; vm_compute; reflexivity)
  end.
  split; [exact Hv|].
  destruct (FreeDefault_leaves_dangling_pointer _ _ _ Hp Hd Hv)
    as (w' & Hf & Hp' & _ & Hf' & Ha).
  exists w'. split; [exact Hf|]. split; [exact Hp'|].
  split; [exact Hf'|exact (Ha int)].
Defined.

Lemma copy_then_destroy_witness :
  ∃ (src : Allocator int) w,
    (SetDefault "test.db" 3;; Allocator_default int) start = Some (src, w) ∧
    owners w src = Some (2%nat, 2%nat) ∧
    ∃ h w1, Allocator_copy double src w = Some (h, w1) ∧
      owners w1 h = Some (3%nat, 3%nat) ∧
      Allocator_destroy h w1 = Some (tt, w).
Proof.
  eexists _, _.
  match goal with |- ?P ∧ _ => assert (H1 : P) by (vm_compute; reflexivity) end.
  split; [exact H1|].
  match goal with |- ?P ∧ _ => assert (H2 : P) by (vm_compute; reflexivity) end.
  split; [exact H2|].
  destruct (copy_then_destroy double _ _ _ _ H2)
    as (h & w1 & Hc & _ & Ho & _ & _ & Hd).
  exists h, w1. split; [exact Hc|]. split; [exact Ho|exact Hd].
Defined.

Lemma handle_outlives_FreeDefault_witness :
  ∃ w p d,
    SetDefault "test.db" 3 start = Some (tt, w) ∧
    default_allocator w = Some p ∧ allocators w !! p = Some d ∧
    owners w d = Some (1%nat, 1%nat) ∧
    ∃ h w1 w2, Allocator_default int w = Some (h, w1) ∧
      FreeDefault w1 = Some (tt, w2) ∧ valid w2 h ∧
      registry w2 h = registry w d.
Proof.
  eexists _, _, _. split; [vm_compute; reflexivity|].
  match goal with |- ?P ∧ _ => assert (Hp : P) by (vm_compute; reflexivity) end.
  split; [exact Hp|].
  match goal with |- ?P ∧ _ => assert (Hd : P) by (vm_compute; reflexivity) end.
  split; [exact Hd|].
  match goal with |- ?P ∧ _ => assert (Ho : P) by (vm_compute; reflexivity) end.
  split; [exact Ho|].
  destruct (handle_outlives_FreeDefault int _ _ _ _ _ Hp Hd Ho)
    as (h & w1 & w2 & Ha & Hf & _ & Hv & _ & Hr & _).
  exists h, w1, w2. split; [exact Ha|]. split; [exact Hf|].
  split; [exact Hv|exact Hr].
Defined.

Lemma SetDefault_then_FreeDefault_witness :
  0 ≤ 3 ≤ INT_MAX ∧ Posix.is_open (kernel start) 3 = false ∧
  ∃ w1 w2 p, SetDefault "test.db" 3 start = Some (tt, w1) ∧
    default_allocator w1 = Some p ∧
    FreeDefault w1 = Some (tt, w2) ∧
    size_maps w2 = size_maps start ∧ free_maps w2 = free_maps start ∧
    allocators w2 = allocators start ∧
    Posix.is_open (kernel w2) 3 = true.
Proof.
  assert (H1 : 0 ≤ 3 ≤ INT_MAX) by (unfold INT_MAX; lia).
  assert (H2 : Posix.is_open (kernel start) 3 = false) by reflexivity.
  split; [exact H1|]. split; [exact H2|].
  destruct (SetDefault_then_FreeDefault "test.db" 3 start H1 H2)
    as (w1 & w2 & p & Hs & Hp & Hf & Hsm & Hfm & Hal & _ & _ & Ho & _).
  exists w1, w2, p. split; [exact Hs|]. split; [exact Hp|].
  split; [exact Hf|]. split; [exact Hsm|]. split; [exact Hfm|].
  split; [exact Hal|exact Ho].
Defined.

Lemma other_size_classes_untouched_witness :
  ∃ (a : Allocator int) w,
    (SetDefault "test.db" 3;; Allocator_default int) start = Some (a, w) ∧
    valid w a ∧
    (∀ n os p w', allocate 4096 a n os w = Some (p, w') →
       ∀ size, size ≠ block_size 4096 int n →
         bucket w' a size = bucket w a size) ∧
    (∀ p n w', deallocate a p n w = Some (tt, w') →
       ∀ x, x ≠ p → registry w' a !! x = registry w a !! x).
Proof.
  eexists _, _.
  match goal with |- ?P ∧ _ => assert (H1 : P) by (vm_compute; reflexivity) end.
  split; [exact H1|].
  match goal with |- valid ?w ?a ∧ _ =>
    assert (Hv : valid w a) by (split; eexists; vm_compute; reflexivity)
  end.
  split; [exact Hv|].
  destruct (other_size_classes_untouched 4096 _ _ Hv) as [Ha Hd].
  split.
  - intros n os p w' H. exact (proj1 (Ha n os p w' H)).
  - intros p n w' H. exact (proj2 (Hd p n w' H)).
Defined.

Lemma double_free_hands_out_twice_witness :
  ∃ (a : Allocator int) w,
    (SetDefault "test.db" 3;;
     h ← Allocator_default int;
     allocate 4096 h 10 (mkOracle true 65536);;
     mret h) start = Some (a, w) ∧
    valid w a ∧ registry w a !! 65536 = Some 4096 ∧
    block_size 4096 int 10 = 4096 ∧ block_size 4096 int 20 = 4096 ∧
    ∃ w1 w2 w3 w4,
      deallocate a 65536 10 w = Some (tt, w1) ∧
      deallocate a 65536 10 w1 = Some (tt, w2) ∧
      allocate 4096 a 10 (mkOracle true 0) w2 = Some (65536, w3) ∧
      allocate 4096 a 20 (mkOracle true 0) w3 = Some (65536, w4).
Proof.
  eexists _, _.
  match goal with |- ?P ∧ _ => assert (H1 : P) by (vm_compute; reflexivity) end.
  split; [exact H1|].
  match goal with |- valid ?w ?a ∧ _ =>
    assert (Hv : valid w a) by (split; eexists; vm_compute; reflexivity)
  end.
  split; [exact Hv|].
  match goal with |- ?P ∧ _ => assert (Hr : P) by (vm_compute; reflexivity) end.
  split; [exact Hr|].
  assert (Hm1 : block_size 4096 int 10 = 4096) by reflexivity.
  assert (Hm2 : block_size 4096 int 20 = 4096) by reflexivity.
  split; [exact Hm1|]. split; [exact Hm2|].
  destruct (double_free_hands_out_twice 4096 _ _ 65536 4096 10 10 10 20
              (mkOracle true 0) (mkOracle true 0) Hv Hr Hm1 Hm2)
    as (w1 & w2 & w3 & w4 & Hd1 & Hd2 & _ & Ha1 & Ha2 & _).
  exists w1, w2, w3, w4. split; [exact Hd1|]. split; [exact Hd2|].
  split; [exact Ha1|exact Ha2].
Defined.

Lemma rounding_idempotent_witness :
  0 < 4096 ∧ (4096 | 2 ^ 64) ∧
  block_size 4096 char (block_size 4096 int 10) = block_size 4096 int 10.
Proof.
  split; [reflexivity|]. split; [exact page_4096_pow2|].
  exact (proj1 (rounding_idempotent 4096 eq_refl page_4096_pow2 int 10)).
Defined.

Lemma new_block_extends_file_witness :
  ∃ (a : Allocator int) w w',
    (SetDefault "test.db" 3;; Allocator_default int) start = Some (a, w) ∧
    valid w a ∧
    bucket w a (block_size 4096 int 10) = [] ∧
    allocate 4096 a 10 (mkOracle true 65536) w = Some (65536, w') ∧
    65536 ≠ NULL ∧ 65536 ≠ MAP_FAILED ∧
    block_size 4096 int 10 ≤ 2 ^ 63 ∧
    backing_length w' a = backing_length w a + block_size 4096 int 10 ∧
    registry w' a !! 65536 = Some (block_size 4096 int 10).
Proof.
  eexists _, _, _.
  match goal with |- ?P ∧ _ => assert (H1 : P) by (vm_compute; reflexivity) end.
  split; [exact H1|].
  match goal with |- valid ?w ?a ∧ _ =>
    assert (Hv : valid w a) by (split; eexists; vm_compute; reflexivity)
  end.
  split; [exact Hv|].
  match goal with |- ?P ∧ _ => assert (Hb : P) by (vm_compute; reflexivity) end.
  split; [exact Hb|].
  match goal with |- ?P ∧ _ => assert (Ha : P) by (vm_compute; reflexivity) end.
  split; [exact Ha|].
  assert (Hn : 65536 ≠ NULL) by (vm_compute; lia).
  assert (Hm : 65536 ≠ MAP_FAILED) by (vm_compute; lia).
  assert (Hs : block_size 4096 int 10 ≤ 2 ^ 63) by (vm_compute; discriminate).
  split; [exact Hn|]. split; [exact Hm|]. split; [exact Hs|].
  destruct (new_block_extends_file 4096 _ _ _ _ _ _ Hv Hb Ha Hn Hm Hs)
    as (_ & Hlen & _ & Hreg & _).
  split; [exact Hlen|exact Hreg].
Defined.

Lemma zero_size_request_maps_nothing_witness :
  ∃ (a : Allocator int) w p w',
    (SetDefault "test.db" 3;; Allocator_default int) start = Some (a, w) ∧
    valid w a ∧
    block_size 4096 int 0 = 0 ∧
    bucket w a 0 = [] ∧
    allocate 4096 a 0 (mkOracle true 65536) w = Some (p, w') ∧
    (p = NULL ∨ p = MAP_FAILED) ∧
    Posix.mappings (kernel w') = Posix.mappings (kernel w) ∧
    backing_length w' a = backing_length w a.
Proof.
  eexists _, _, _, _.
  match goal with |- ?P ∧ _ => assert (H1 : P) by (vm_compute; reflexivity) end.
  split; [exact H1|].
  match goal with |- valid ?w ?a ∧ _ =>
    assert (Hv : valid w a) by (split; eexists; vm_compute; reflexivity)
  end.
  split; [exact Hv|].
  assert (Hz : block_size 4096 int 0 = 0) by reflexivity.
  split; [exact Hz|].
  match goal with |- ?P ∧ _ => assert (Hb : P) by (vm_compute; reflexivity) end.
  split; [exact Hb|].
  match goal with |- ?P ∧ _ => assert (Ha : P) by (vm_compute; reflexivity) end.
  split; [exact Ha|].
  destruct (zero_size_request_maps_nothing 4096 _ _ _ _ _ _ Hv Hz Hb Ha)
    as (Hp & Hm & Hl & _).
  split; [exact Hp|]. split; [exact Hm|exact Hl].
Defined.

Lemma seek_and_write_failures_reported_witness :
  ∃ (a : Allocator int) w,
    (SetDefault "test.db" 3;; Allocator_default int) start = Some (a, w) ∧
    valid w a ∧
    bucket w a (block_size 4096 int 10) = [] ∧
    (write_ok (mkOracle false 65536) = false
     ∨ Posix.is_open (kernel w) (fd_ a) = false) ∧
    ∃ w', allocate 4096 a 10 (mkOracle false 65536) w = Some (NULL, w') ∧
      registry w' a = registry w a ∧
      backing_length w' a = backing_length w a.
Proof.
  eexists _, _.
  match goal with |- ?P ∧ _ => assert (H1 : P) by (vm_compute; reflexivity) end.
  split; [exact H1|].
  match goal with |- valid ?w ?a ∧ _ =>
    assert (Hv : valid w a) by (split; eexists; vm_compute; reflexivity)
  end.
  split; [exact Hv|].
  match goal with |- ?P ∧ _ => assert (Hb : P) by (vm_compute; reflexivity) end.
  split; [exact Hb|].
  match goal with |- ?P ∧ _ =>
    assert (Hf : P) by (left; reflexivity)
  end.
  split; [exact Hf|].
  destruct (seek_and_write_failures_reported 4096 _ 10 _ _ Hv Hb Hf)
    as (w' & Ha & Hr & _ & Hl & _).
  exists w'. split; [exact Ha|]. split; [exact Hr|exact Hl].
Defined.

Lemma nothing_is_given_back_witness :
  ∃ (a : Allocator int) w w' live',
    (SetDefault "test.db" 3;; Allocator_default int) start = Some (a, w) ∧
    valid w a ∧
    run 4096 a false
      [OAllocate int 10 (mkOracle true 65536); ODeallocate int 65536 1;
       ODeallocate char 65536 7]
      (w, ∅) = Some (w', live') ∧
    valid w' a ∧
    (∀ m, m ∈ Posix.mappings (kernel w) → m ∈ Posix.mappings (kernel w')) ∧
    backing_length w a ≤ backing_length w' a.
Proof.
  eexists _, _, _, _.
  match goal with |- ?P ∧ _ => assert (H1 : P) by (vm_compute; reflexivity) end.
  split; [exact H1|].
  match goal with |- valid ?w ?a ∧ _ =>
    assert (Hv : valid w a) by (split; eexists; vm_compute; reflexivity)
  end.
  split; [exact Hv|].
  match goal with |- ?P ∧ _ => assert (Hr : P) by (vm_compute; reflexivity) end.
  split; [exact Hr|].
  destruct (nothing_is_given_back 4096 _ _ _ _ _ _ _ Hv Hr)
    as (Hv' & _ & Hm & Hl & _).
  split; [exact Hv'|]. split; [exact Hm|exact Hl].
Defined.

Lemma file_grows_in_pages_witness :
  ∃ h w live,
    history 4096 false start "test.db" 3
      [OAllocate int 10 (mkOracle true 65536);
       OAllocate char 5000 (mkOracle true 131072);
       ODeallocate int 65536 10] = Some (h, w, live) ∧
    (∃ c, 0 ≤ c ∧ backing_length w h = c * 4096) ∧
    backing_length w h = Posix.file_length (kernel w) "test.db".
Proof.
  eexists _, _, _.
  match goal with |- ?P ∧ _ => assert (Hh : P) by (vm_compute; reflexivity) end.
  split; [exact Hh|].
  destruct (file_grows_in_pages 4096 eq_refl page_4096_pow2 _ _ _ _ _ _ _ _ Hh)
    as (Hc & _ & Hl & _).
  split; [exact Hc|exact Hl].
Defined.

Lemma no_block_handed_out_twice_witness :
  ∃ h w live,
    history 4096 true start "test.db" 3
      [OAllocate int 10 (mkOracle true 65536);
       OAllocate char 5000 (mkOracle true 131072);
       ODeallocate int 65536 10] = Some (h, w, live) ∧
    (∀ T n os p w',
       allocate 4096 (at_type T h) n os w = Some (p, w') →
       p ≠ MAP_FAILED → live !! p = None) ∧
    (∀ a size vec,
       is_Some (live !! a) → a ≠ MAP_FAILED →
       free_list w h !! size = Some vec → a ∉ vec).
Proof.
  eexists _, _, _.
  match goal with |- ?P ∧ _ => assert (Hh : P) by (vm_compute; reflexivity) end.
  split; [exact Hh|].
  destruct (no_block_handed_out_twice 4096 _ _ _ _ _ _ _ Hh)
    as (Ha & Hf & _).
  split; [exact Ha|exact Hf].
Defined.

Lemma live_blocks_do_not_overlap_witness :
  ∃ h w live,
    history 4096 true start "test.db" 3
      [OAllocate int 10 (mkOracle true 65536);
       OAllocate char 5000 (mkOracle true 131072)] = Some (h, w, live) ∧
    ∀ a b sa sb, live !! a = Some sa → live !! b = Some sb →
      a ≠ MAP_FAILED → b ≠ MAP_FAILED → a ≠ b →
      a + sa ≤ b ∨ b + sb ≤ a.
Proof.
  eexists _, _, _.
  match goal with |- ?P ∧ _ => assert (Hh : P) by (vm_compute; reflexivity) end.
  split; [exact Hh|].
  exact (proj2 (live_blocks_do_not_overlap 4096 _ _ _ _ _ _ _ Hh)).
Defined.

Lemma live_blocks_in_file_witness :
  ∃ h w live,
    history 4096 true start "test.db" 3
      [OAllocate int 10 (mkOracle true 65536);
       OAllocate char 5000 (mkOracle true 131072)] = Some (h, w, live) ∧
    Forall (fits_off_t 4096)
      [OAllocate int 10 (mkOracle true 65536);
       OAllocate char 5000 (mkOracle true 131072)] ∧
    ∀ a size m, live !! a = Some size → a ≠ MAP_FAILED →
      block_mapping (kernel w) a size m →
      Posix.m_path m = "test.db" ∧ Posix.m_off m mod 4096 = 0 ∧
      0 ≤ Posix.m_off m ∧
      Posix.m_off m + size ≤ Posix.file_length (kernel w) "test.db".
Proof.
  eexists _, _, _.
  match goal with |- ?P ∧ _ => assert (Hh : P) by (vm_compute; reflexivity) end.
  split; [exact Hh|].
  match goal with |- ?P ∧ _ =>
    assert (Hf : P)
      by (repeat constructor; vm_compute; discriminate)
  end.
  split; [exact Hf|].
  exact (proj1 (live_blocks_in_file 4096 _ _ _ _ _ _ _ Hh Hf)).
Defined.

Lemma second_New_truncates_under_live_blocks_witness :
  ∃ h w live l w',
    history 4096 true start "test.db" 3
      [OAllocate int 10 (mkOracle true 65536);
       OAllocate char 5000 (mkOracle true 131072);
       ODeallocate int 65536 10] = Some (h, w, live) ∧
    Forall (fits_off_t 4096)
      [OAllocate int 10 (mkOracle true 65536);
       OAllocate char 5000 (mkOracle true 131072);
       ODeallocate int 65536 10] ∧
    New "test.db" 4 w = Some (Some l, w') ∧
    live !! 131072 = Some 8192 ∧
    Posix.file_length (kernel w) "test.db" = 12288 ∧
    Posix.file_length (kernel w') "test.db" = 0 ∧
    backing_length w' h = 0 ∧
    (∃ m, block_mapping (kernel w') 131072 8192 m ∧
       Posix.m_path m = "test.db" ∧ 0 ≤ Posix.m_off m ∧
       Posix.file_length (kernel w') "test.db" < Posix.m_off m + 8192) ∧
    ∀ T n os p w'',
      bucket w' h (block_size 4096 T n) = [] →
      allocate 4096 (at_type T h) n os w' = Some (p, w'') →
      p ≠ NULL → p ≠ MAP_FAILED →
      Posix.mappings (kernel w'')
      = Posix.mkMapping p (block_size 4096 T n) "test.db" 0
          :: Posix.mappings (kernel w').
Proof.
  eexists _, _, _, _, _.
  match goal with |- ?P ∧ _ => assert (Hh : P) by (vm_compute; reflexivity) end.
  split; [exact Hh|].
  match goal with |- ?P ∧ _ =>
    assert (Hf : P) by (repeat constructor; vm_compute; discriminate)
  end.
  split; [exact Hf|].
  match goal with |- ?P ∧ _ => assert (HN : P) by (vm_compute; reflexivity) end.
  split; [exact HN|].
  match goal with |- ?P ∧ _ => assert (Hl : P) by (vm_compute; reflexivity) end.
  split; [exact Hl|].
  split; [vm_compute; reflexivity|].
  destruct (second_New_truncates_under_live_blocks 4096
              _ _ _ _ _ _ _ _ _ _ Hh Hf HN)
    as (Hlen & Hbl & _ & _ & _ & Hlive & Hnext).
  split; [exact Hlen|]. split; [exact Hbl|].
  split; [|exact Hnext].
  apply (Hlive 131072 8192 Hl). discriminate.
Defined.
